(** * Verification of the feed store of nrocco/agile-falls-43000
    (storage/feeds.go and the schema in storage/migrate).

    Modelling conventions.
    - A Go [time.Time] is a [Z] (seconds); [0] is Go's zero time, so
      [IsZero t] is [t =? 0].
    - Every call to [time.Now()] reads the next value of a clock
      [clk : nat -> Z]; every call to [generateUUID()] reads the next value of
      [uuid : nat -> string].  The counters live in [St].
    - The HTTP client, the feed parser, the HTML sanitizer and the RFC1123
      formatter are external libraries; they are parameters bundled in [Env].
    - The SQLite database is a list of rows; every statement the store issues
      is also recorded in a query log. *)

From Stdlib Require Import List String Ascii ZArith Bool Lia Permutation Sorting.Sorted.
Import ListNotations.
Open Scope string_scope.
Open Scope Z_scope.

(** ** Data model (storage/feeds.go) *)

Module FeedItem.
Record t := mk {
  ID : string;
  Created : Z;
  Updated : Z;
  Title : string;
  URL : string;
  Date : Z;
  Content : string
}.
End FeedItem.

(** [Tags] is a string slice; [None] is the Go [nil] slice. *)
Definition Tags := option (list string).

Module Feed.
Record t := mk {
  ID : string;
  Created : Z;
  Updated : Z;
  Refreshed : Z;
  LastAuthored : Z;
  Title : string;
  URL : string;
  Etag : string;
  Tags : option (list string);
  Items : list FeedItem.t
}.

Definition set_ID (f : t) v := mk v f.(Created) f.(Updated) f.(Refreshed) f.(LastAuthored) f.(Title) f.(URL) f.(Etag) f.(Tags) f.(Items).
Definition set_Created (f : t) v := mk f.(ID) v f.(Updated) f.(Refreshed) f.(LastAuthored) f.(Title) f.(URL) f.(Etag) f.(Tags) f.(Items).
Definition set_Updated (f : t) v := mk f.(ID) f.(Created) v f.(Refreshed) f.(LastAuthored) f.(Title) f.(URL) f.(Etag) f.(Tags) f.(Items).
Definition set_Refreshed (f : t) v := mk f.(ID) f.(Created) f.(Updated) v f.(LastAuthored) f.(Title) f.(URL) f.(Etag) f.(Tags) f.(Items).
Definition set_LastAuthored (f : t) v := mk f.(ID) f.(Created) f.(Updated) f.(Refreshed) v f.(Title) f.(URL) f.(Etag) f.(Tags) f.(Items).
Definition set_Title (f : t) v := mk f.(ID) f.(Created) f.(Updated) f.(Refreshed) f.(LastAuthored) v f.(URL) f.(Etag) f.(Tags) f.(Items).
Definition set_Etag (f : t) v := mk f.(ID) f.(Created) f.(Updated) f.(Refreshed) f.(LastAuthored) f.(Title) f.(URL) v f.(Tags) f.(Items).
Definition set_Tags (f : t) v := mk f.(ID) f.(Created) f.(Updated) f.(Refreshed) f.(LastAuthored) f.(Title) f.(URL) f.(Etag) v f.(Items).
Definition set_Items (f : t) v := mk f.(ID) f.(Created) f.(Updated) f.(Refreshed) f.(LastAuthored) f.(Title) f.(URL) f.(Etag) f.(Tags) v.
End Feed.

(** The sentinel errors of feeds.go, plus errors coming from libraries. *)
Inductive Error :=
| ErrNoFeedURL
| ErrNoFeedKey
| ErrNotExistingFeedItem
| ErrDB (msg : string)
| ErrLib (msg : string).

(** Counters of the clock and of the UUID generator. *)
Record St := mkSt { ticks : nat; uuids : nat }.

(** ** [GetItem] (feeds.go:144-152) *)

Fixpoint get_item_loop (ID : string) (items : list FeedItem.t) : option FeedItem.t :=
  match items with
  | [] => None
  | item :: items' => if String.eqb ID item.(FeedItem.ID) then Some item else get_item_loop ID items'
  end.

Definition GetItem (feed : Feed.t) (ID : string) : option FeedItem.t :=
  get_item_loop ID feed.(Feed.Items).

(** ** [DeleteItem] (feeds.go:155-167) *)

(** The [for i, item := range feed.Items] loop: [i] is the index reached. *)
Fixpoint delete_item_loop (ID : string) (all : list FeedItem.t) (i : nat)
    (rest : list FeedItem.t) : option Error * list FeedItem.t :=
  match rest with
  | [] => (Some ErrNotExistingFeedItem, all)
  | item :: rest' =>
      if negb (String.eqb ID item.(FeedItem.ID)) then delete_item_loop ID all (S i) rest'
      else (None, (firstn i all ++ skipn (S i) all)%list)
  end.

Definition DeleteItem (feed : Feed.t) (ID : string) : option Error * Feed.t :=
  let '(err, items) := delete_item_loop ID feed.(Feed.Items) 0 feed.(Feed.Items) in
  (err, Feed.set_Items feed items).

(** ** External collaborators *)

Record Request := mkRequest {
  Method : string;
  ReqURL : string;
  Header : list (string * string)
}.

Record Response := mkResponse {
  StatusCode : Z;
  EtagHeader : string;  (** [response.Header.Get("Etag")] *)
  Body : string
}.

(** Outcome of [client.Do(request)].  A transport error (DNS, connect,
    timeout) comes with a nil response; net/http returns a non-nil response
    together with an error only when the redirect policy fails. *)
Inductive DoResult :=
| DoOk (resp : Response)
| DoErr (err : string) (resp : option Response).

(** What gofeed hands back: [*Item] and [*Feed] restricted to the fields
    feeds.go reads. *)
Module ParsedItem.
Record t := mk {
  Title : string;
  Link : string;
  Content : string;
  Description : string;
  PublishedParsed : option Z;
  UpdatedParsed : option Z
}.
End ParsedItem.

Module ParsedFeed.
Record t := mk {
  Title : string;
  Updated : string;
  UpdatedParsed : option Z;
  Items : list ParsedItem.t
}.
End ParsedFeed.

Record Env := mkEnv {
  clk : nat -> Z;                                (** time.Now() *)
  uuid : nat -> string;                          (** generateUUID() *)
  NewRequest : string -> string -> Request + string;  (** http.NewRequest *)
  Do : Request -> DoResult;                      (** client.Do *)
  Parse : string -> ParsedFeed.t + string;        (** gofeed Parser.Parse *)
  Sanitize : string -> string;                   (** bluemonday.StrictPolicy *)
  FormatRFC1123 : Z -> string;                   (** t.UTC().Format(time.RFC1123) *)
  defaultUserAgent : string
}.

(** ** The database (schema of table [feeds]) *)

(** Conditions of the WHERE clauses built by the store.  [CondTag] names the
    table whose [tags] column it reads: [EXISTS (SELECT 1 FROM
    json_each(tbl.tags) where json_each.value = v)], negated when [neg]. *)
Inductive Cond :=
| CondID (id : string)
| CondURL (url : string)
| CondSearch (s : string)
| CondRefreshedBefore (t : Z)
| CondTag (neg : bool) (tbl : string) (v : string).

Inductive Query :=
| QSelect (cols : list string) (conds : list Cond)
| QInsert (row : Feed.t)
| QUpdate (id : string)
| QDelete (conds : list Cond).

Record World := mkWorld {
  db : list Feed.t;      (** rows of [feeds], in rowid order *)
  qlog : list Query;     (** statements issued, oldest first *)
  st : St
}.

(** SQLite's LIKE: [%] any run, [_] one character, ASCII case folded. *)
Definition lower (c : ascii) : ascii :=
  let n := nat_of_ascii c in
  if (Nat.leb 65 n && Nat.leb n 90)%bool then ascii_of_nat (n + 32) else c.

Fixpoint like (p s : list ascii) : bool :=
  match p with
  | [] => match s with [] => true | _ => false end
  | c :: p' =>
      if Ascii.eqb c "%"%char then
        (fix go (s : list ascii) : bool :=
           like p' s || match s with [] => false | _ :: s' => go s' end) s
      else if Ascii.eqb c "_"%char then
        match s with [] => false | _ :: s' => like p' s' end
      else
        match s with
        | [] => false
        | d :: s' => Ascii.eqb (lower c) (lower d) && like p' s'
        end
  end.

Definition LIKE (s pat : string) : bool := like (list_ascii_of_string pat) (list_ascii_of_string s).

Definition tags_of (ts : Tags) : list string :=
  match ts with None => [] | Some l => l end.

(** Name resolution: a statement over [FROM feeds] may only read columns of
    [feeds]; SQLite refuses to prepare it otherwise ("no such column"). *)
Definition cond_resolves (table : string) (c : Cond) : bool :=
  match c with
  | CondTag _ tbl _ => String.eqb tbl table
  | _ => true
  end.

Definition eval_cond (r : Feed.t) (c : Cond) : bool :=
  match c with
  | CondID id => String.eqb r.(Feed.ID) id
  | CondURL url => String.eqb r.(Feed.URL) url
  | CondSearch s => LIKE r.(Feed.Title) ("%" ++ s ++ "%") || LIKE r.(Feed.URL) ("%" ++ s ++ "%")
  | CondRefreshedBefore t => r.(Feed.Refreshed) <? t
  | CondTag neg _ v =>
      let ex := existsb (String.eqb v) (tags_of r.(Feed.Tags)) in
      if neg then negb ex else ex
  end.

Definition matches (conds : list Cond) (r : Feed.t) : bool :=
  forallb (eval_cond r) conds.

(** [SELECT ... FROM feeds WHERE conds] *)
Definition select_feeds (conds : list Cond) (rows : list Feed.t) : list Feed.t + Error :=
  if forallb (cond_resolves "feeds") conds then inl (filter (matches conds) rows)
  else inr (ErrDB "no such column: thoughts.tags").

(** [DELETE FROM feeds WHERE conds]; no condition at all deletes every row. *)
Definition delete_feeds (conds : list Cond) (rows : list Feed.t) : list Feed.t + Error :=
  if forallb (cond_resolves "feeds") conds then inl (filter (fun r => negb (matches conds r)) rows)
  else inr (ErrDB "no such column: thoughts.tags").

(** [INSERT INTO feeds (id, created, etag, items, last_authored, refreshed,
    tags, title, updated, url)]: every column of the row; [id] is the
    PRIMARY KEY and [url] is UNIQUE. *)
Definition insert_feed (row : Feed.t) (rows : list Feed.t) : list Feed.t + Error :=
  if existsb (fun r => String.eqb r.(Feed.ID) row.(Feed.ID) || String.eqb r.(Feed.URL) row.(Feed.URL)) rows
  then inr (ErrDB "UNIQUE constraint failed")
  else inl (rows ++ [row])%list.

(** [UPDATE feeds SET etag, items, last_authored, refreshed, tags, title,
    updated, url WHERE id = ?] *)
Definition update_row (f r : Feed.t) : Feed.t :=
  Feed.mk r.(Feed.ID) r.(Feed.Created) f.(Feed.Updated) f.(Feed.Refreshed) f.(Feed.LastAuthored)
          f.(Feed.Title) f.(Feed.URL) f.(Feed.Etag) f.(Feed.Tags) f.(Feed.Items).

Definition update_feed (f : Feed.t) (rows : list Feed.t) : list Feed.t + Error :=
  if existsb (fun r => String.eqb r.(Feed.ID) f.(Feed.ID)) rows &&
     existsb (fun r => negb (String.eqb r.(Feed.ID) f.(Feed.ID)) && String.eqb r.(Feed.URL) f.(Feed.URL)) rows
  then inr (ErrDB "UNIQUE constraint failed: feeds.url")
  else inl (map (fun r => if String.eqb r.(Feed.ID) f.(Feed.ID) then update_row f r else r) rows).

(** Stable insertion sort: [before a b] says [a] goes first
    (sort.SliceStable with [less]). *)
Section StableSort.
Context {A : Type} (before : A -> A -> bool).

Fixpoint insert_stable (x : A) (l : list A) : list A :=
  match l with
  | [] => [x]
  | y :: l' => if before y x then y :: insert_stable x l' else x :: y :: l'
  end.

Definition sort_stable (l : list A) : list A := fold_right insert_stable [] l.
End StableSort.

(** ** The store operations *)

Section Store.
Context (env : Env).

Definition now (s : St) : Z * St := (clk env (ticks s), mkSt (S (ticks s)) (uuids s)).

Definition generateUUID (s : St) : string * St := (uuid env (uuids s), mkSt (ticks s) (S (uuids s))).

Definition with_st (w : World) (s : St) : World := mkWorld w.(db) w.(qlog) s.

Definition log_query (w : World) (q : Query) : World := mkWorld w.(db) (w.(qlog) ++ [q])%list w.(st).

Definition set_db (w : World) (rows : list Feed.t) : World := mkWorld rows w.(qlog) w.(st).

(** *** [FeedGet] (feeds.go:222-239) *)

(** [query.Limit(1)] and [query.LoadValue(&feed)]: the first matching row
    replaces the feed; no row is an error ([sql.ErrNoRows]). *)
Definition feed_get_load (conds : list Cond) (feed : Feed.t) (w : World) : option Error * Feed.t * World :=
  let w := log_query w (QSelect ["*"] conds) in
  match select_feeds conds w.(db) with
  | inr e => (Some e, feed, w)
  | inl [] => (Some (ErrDB "sql: no rows in result set"), feed, w)
  | inl (r :: _) => (None, r, w)
  end.

Definition FeedGet (feed : Feed.t) (w : World) : option Error * Feed.t * World :=
  if negb (String.eqb feed.(Feed.ID) "") then feed_get_load [CondID feed.(Feed.ID)] feed w
  else if negb (String.eqb feed.(Feed.URL) "") then feed_get_load [CondURL feed.(Feed.URL)] feed w
  else (Some ErrNoFeedKey, feed, w).

(** *** [FeedPersist] (feeds.go:242-300) *)

(** [store.db.Select(ctx).From("feeds").Columns("id", "created")
    .Where("url = ?", feed.URL).Limit(1).LoadValue(&feed)]: its error is
    ignored; when a row is found its [id] and [created] are scanned into
    the feed. *)
Definition lookup_by_url (feed : Feed.t) (rows : list Feed.t) : Feed.t :=
  match find (fun r => String.eqb r.(Feed.URL) feed.(Feed.URL)) rows with
  | Some r => Feed.set_Created (Feed.set_ID feed r.(Feed.ID)) r.(Feed.Created)
  | None => feed
  end.

(** Lines 247-263: the defaults. *)
Definition persist_defaults (feed : Feed.t) (s : St) : Feed.t * St :=
  let feed := if String.eqb feed.(Feed.Title) "" then Feed.set_Title feed feed.(Feed.URL) else feed in
  let '(feed, s) :=
    if feed.(Feed.Created) =? 0 then let '(n, s) := now s in (Feed.set_Created feed n, s)
    else (feed, s) in
  let '(feed, s) :=
    if feed.(Feed.Refreshed) =? 0 then let '(n, s) := now s in (Feed.set_Refreshed feed (n - 24 * 7 * 3600), s)
    else (feed, s) in
  let feed := match feed.(Feed.Tags) with None => Feed.set_Tags feed (Some []) | Some _ => feed end in
  let '(n, s) := now s in
  (Feed.set_Updated feed n, s).

Definition FeedPersist (feed : Feed.t) (w : World) : option Error * Feed.t * World :=
  if String.eqb feed.(Feed.URL) "" then (Some ErrNoFeedURL, feed, w) else
  let '(feed, s) := persist_defaults feed w.(st) in
  let w := log_query (with_st w s) (QSelect ["id"; "created"] [CondURL feed.(Feed.URL)]) in
  let feed := lookup_by_url feed w.(db) in
  if String.eqb feed.(Feed.ID) "" then
    let '(id, s) := generateUUID w.(st) in
    let feed := Feed.set_ID feed id in
    let w := log_query (with_st w s) (QInsert feed) in
    match insert_feed feed w.(db) with
    | inr e => (Some e, feed, w)
    | inl rows => (None, feed, set_db w rows)
    end
  else
    let w := log_query w (QUpdate feed.(Feed.ID)) in
    match update_feed feed w.(db) with
    | inr e => (Some e, feed, w)
    | inl rows => (None, feed, set_db w rows)
    end.

(** *** [FeedDelete] (feeds.go:303-326) *)

Definition FeedDelete (feed : Feed.t) (w : World) : option Error * World :=
  if String.eqb feed.(Feed.ID) "" && String.eqb feed.(Feed.URL) "" then (Some ErrNoFeedKey, w) else
  let conds :=
    ((if negb (String.eqb feed.(Feed.ID) "") then [CondID feed.(Feed.ID)] else []) ++
     (if negb (String.eqb feed.(Feed.Title) "") then [CondURL feed.(Feed.URL)] else []))%list in
  let w := log_query w (QDelete conds) in
  match delete_feeds conds w.(db) with
  | inr e => (Some e, w)
  | inl rows => (None, set_db w rows)
  end.

(** *** [FeedList] (feeds.go:169-219) *)

Record FeedListOptions := mkFeedListOptions {
  Search : string;
  OptTags : Tags;
  NotRefreshedSince : Z;
  Limit : Z;
  Offset : Z
}.

Definition HasPrefix (s prefix : string) : bool := String.prefix prefix s.

Definition TrimPrefix (s prefix : string) : string :=
  if HasPrefix s prefix then substring (String.length prefix) (String.length s - String.length prefix) s
  else s.

(** The [for _, tag := range options.Tags] loop. *)
Definition tag_conds (tags : list string) : list Cond :=
  flat_map (fun tag =>
    if String.eqb tag "" then []
    else if HasPrefix tag "-" then [CondTag true "thoughts" (TrimPrefix tag "-")]
    else [CondTag false "thoughts" tag]) tags.

Definition list_conds (options : FeedListOptions) : list Cond :=
  ((if negb (String.eqb options.(Search) "") then [CondSearch options.(Search)] else []) ++
   (if negb (options.(NotRefreshedSince) =? 0) then [CondRefreshedBefore options.(NotRefreshedSince)] else []) ++
   tag_conds (tags_of options.(OptTags)))%list.

(** [ORDER BY last_authored DESC LIMIT n OFFSET m], with SQLite's reading
    of a negative limit as "no limit" and of a negative offset as 0. *)
Definition order_limit (options : FeedListOptions) (rows : list Feed.t) : list Feed.t :=
  let sorted := sort_stable (fun a b => b.(Feed.LastAuthored) <? a.(Feed.LastAuthored)) rows in
  let rest := skipn (Z.to_nat options.(Offset)) sorted in
  if options.(Limit) <? 0 then rest else firstn (Z.to_nat options.(Limit)) rest.

Definition FeedList (options : FeedListOptions) (w : World) : list Feed.t * Z * World :=
  let conds := list_conds options in
  let w := log_query w (QSelect ["COUNT(id)"] conds) in
  match select_feeds conds w.(db) with
  | inr _ => ([], 0, w)
  | inl found =>
      let totalCount := Z.of_nat (List.length found) in
      let w := log_query w (QSelect ["*"] conds) in
      (order_limit options found, totalCount, w)
  end.

(** *** [Fetch] (feeds.go:42-141) *)

Inductive FetchResult :=
| FOk                (** returns nil *)
| FErr (e : Error)   (** returns an error *)
| FPanic.            (** run-time panic (nil pointer dereference) *)

(** [request.Header.Set(k, v)] *)
Definition set_header (k v : string) (r : Request) : Request :=
  mkRequest r.(Method) r.(ReqURL) ((k, v) :: filter (fun p => negb (String.eqb (fst p) k)) r.(Header)).

(** [request.Header.Get(k)] ([None] for a missing header). *)
Definition header_get (k : string) (hs : list (string * string)) : option string :=
  option_map snd (find (fun p => String.eqb (fst p) k) hs).

(** Lines 53-67. *)
Definition build_request (feed : Feed.t) : Request + string :=
  match NewRequest env "GET" feed.(Feed.URL) with
  | inr err => inr err
  | inl request =>
      let request := set_header "User-Agent" (defaultUserAgent env) request in
      inl (if negb (String.eqb feed.(Feed.Etag) "") then set_header "If-None-Match" feed.(Feed.Etag) request
           else if negb (feed.(Feed.Refreshed) =? 0)
                then set_header "If-Modified-Since" (FormatRFC1123 env feed.(Feed.Refreshed)) request
           else request)
  end.

(** Lines 94-114: the [feedItem] built from a parsed entry. *)
Definition build_feed_item (item : ParsedItem.t) (s : St) : FeedItem.t * St :=
  let '(id, s) := generateUUID s in
  let '(created, s) := now s in
  let '(updated, s) := now s in
  let content :=
    if negb (String.eqb item.(ParsedItem.Content) "") then Sanitize env item.(ParsedItem.Content)
    else Sanitize env item.(ParsedItem.Description) in
  let '(date, s) :=
    match item.(ParsedItem.PublishedParsed) with
    | Some d => (d, s)
    | None => match item.(ParsedItem.UpdatedParsed) with
              | Some d => (d, s)
              | None => now s
              end
    end in
  (FeedItem.mk id created updated item.(ParsedItem.Title) item.(ParsedItem.Link) date content, s).

(** Lines 116-120: [true] when the loop goes on to append the item. *)
Definition keep_item (refreshed : Z) (feedItem : FeedItem.t) (s : St) : bool * St :=
  if feedItem.(FeedItem.Date) <? refreshed then (false, s)
  else let '(n, s) := now s in
       if n <? feedItem.(FeedItem.Date) then (false, s) else (true, s).

(** Lines 93-123. *)
Fixpoint fetch_loop (refreshed : Z) (entries : list ParsedItem.t) (items : list FeedItem.t) (s : St)
    : list FeedItem.t * St :=
  match entries with
  | [] => (items, s)
  | item :: entries' =>
      let '(feedItem, s) := build_feed_item item s in
      let '(keep, s) := keep_item refreshed feedItem s in
      fetch_loop refreshed entries' (if keep then (items ++ [feedItem])%list else items) s
  end.

(** [a] precedes [b] in [sort.SliceStable] when [a.Date.After(b.Date)]. *)
Definition date_after (a b : FeedItem.t) : bool := b.(FeedItem.Date) <? a.(FeedItem.Date).

(** Lines 129-140. *)
Definition fetch_finish (response : Response) (parsed : ParsedFeed.t) (feed : Feed.t) (s : St)
    : FetchResult * Feed.t * St :=
  let feed := Feed.set_Etag feed response.(EtagHeader) in
  let '(n, s) := now s in
  let feed := Feed.set_Refreshed feed n in
  let feed := if String.eqb feed.(Feed.Title) "" then Feed.set_Title feed parsed.(ParsedFeed.Title) else feed in
  let feed := Feed.set_Items feed (sort_stable date_after feed.(Feed.Items)) in
  (FOk, feed, s).

Definition Fetch (feed : Feed.t) (s : St) : FetchResult * Feed.t * St :=
  if String.eqb feed.(Feed.URL) "" then (FErr ErrNoFeedURL, feed, s) else
  match build_request feed with
  | inr err => (FErr (ErrLib err), feed, s)
  | inl request =>
      match Do env request with
      | DoErr err None =>
          (* line 71 evaluates [response.StatusCode] with [response == nil] *)
          (FPanic, feed, s)
      | DoErr err (Some _) => (FErr (ErrLib err), feed, s)
      | DoOk response =>
          if response.(StatusCode) =? 304 then (FOk, feed, s) else
          match Parse env response.(Body) with
          | inr err => (FErr (ErrLib err), feed, s)
          | inl parsedFeed =>
              let '(items, s) := fetch_loop feed.(Feed.Refreshed) parsedFeed.(ParsedFeed.Items) feed.(Feed.Items) s in
              let feed := Feed.set_Items feed items in
              if negb (String.eqb parsedFeed.(ParsedFeed.Updated) "") then
                match parsedFeed.(ParsedFeed.UpdatedParsed) with
                | None => (FPanic, feed, s)  (* [*parsedFeed.UpdatedParsed] on nil *)
                | Some t => fetch_finish response parsedFeed (Feed.set_LastAuthored feed t) s
                end
              else fetch_finish response parsedFeed feed s
          end
      end
  end.
(** *** [FeedRefresh] (feeds.go:329-341) *)

Definition FeedRefresh (feed : Feed.t) (w : World) : FetchResult * Feed.t * World :=
  match Fetch feed w.(st) with
  | (FOk, feed, s) =>
      match FeedPersist feed (with_st w s) with
      | (None, feed, w) => (FOk, feed, w)
      | (Some e, feed, w) => (FErr e, feed, w)
      end
  | (r, feed, s) => (r, feed, with_st w s)
  end.
End Store.

(** ** The full-text shadow indexes (schema, storage/migrate: bookmarks_fts,
    thoughts_fts and their triggers) *)

Module FTS.
(** An fts5 table with [content=<table>, content_rowid=rowid]: the multiset
    of entries (rowid, indexed column values). *)
Definition Index := list (Z * list string).

Fixpoint strings_eqb (a b : list string) : bool :=
  match a, b with
  | [], [] => true
  | x :: a', y :: b' => String.eqb x y && strings_eqb a' b'
  | _, _ => false
  end.

Definition entry_eqb (a b : Z * list string) : bool :=
  (fst a =? fst b) && strings_eqb (snd a) (snd b).

(** [INSERT INTO x_fts(rowid, ...) VALUES (...)] *)
Definition fts_insert (e : Z * list string) (ix : Index) : Index := (ix ++ [e])%list.

(** [INSERT INTO x_fts(x_fts, rowid, ...) VALUES('delete', ...)] *)
Fixpoint fts_delete (e : Z * list string) (ix : Index) : Index :=
  match ix with
  | [] => []
  | e' :: ix' => if entry_eqb e e' then ix' else e' :: fts_delete e ix'
  end.

Record Bookmark := mkBookmark {
  b_rowid : Z; b_id : string; b_created : Z; b_updated : Z; b_title : string;
  b_url : string; b_excerpt : string; b_content : string; b_tags : list string;
  b_archived : bool
}.

Record Thought := mkThought {
  t_rowid : Z; t_id : string; t_created : Z; t_updated : Z; t_title : string;
  t_tags : list string; t_content : string
}.

(** The triggers, one definition each, as written in the schema. *)
Definition bookmarks_ai (new : Bookmark) (ix : Index) : Index :=
  fts_insert (new.(b_rowid), [new.(b_title); new.(b_url); new.(b_content)]) ix.
Definition bookmarks_ad (old : Bookmark) (ix : Index) : Index :=
  fts_delete (old.(b_rowid), [old.(b_title); old.(b_url); old.(b_content)]) ix.
Definition bookmarks_au (old new : Bookmark) (ix : Index) : Index :=
  fts_insert (new.(b_rowid), [new.(b_title); new.(b_url); new.(b_content)])
    (fts_delete (old.(b_rowid), [old.(b_title); old.(b_url); old.(b_content)]) ix).

Definition thoughts_ai (new : Thought) (ix : Index) : Index :=
  fts_insert (new.(t_rowid), [new.(t_title); new.(t_content)]) ix.
Definition thoughts_ad (old : Thought) (ix : Index) : Index :=
  fts_delete (old.(t_rowid), [old.(t_title); old.(t_content)]) ix.
Definition thoughts_au (old new : Thought) (ix : Index) : Index :=
  fts_insert (new.(t_rowid), [new.(t_title); new.(t_content)])
    (fts_delete (old.(t_rowid), [old.(t_title); old.(t_content)]) ix).

Fixpoint unique_on {R : Type} (key : R -> string) (rows : list R) : bool :=
  match rows with
  | [] => true
  | r :: rs => negb (existsb (fun r' => String.eqb (key r) (key r')) rs) && unique_on key rs
  end.

Fixpoint max_rowid {R : Type} (rowid : R -> Z) (rows : list R) : Z :=
  match rows with [] => 0 | r :: rs => Z.max (rowid r) (max_rowid rowid rs) end.

(** One base table with AFTER INSERT/DELETE/UPDATE FOR EACH ROW triggers.
    A statement that violates a constraint is aborted: the table and the
    index are rolled back together. *)
Section Table.
Context {Row : Type} (rowid : Row -> Z) (valid : list Row -> bool)
        (ai : Row -> Index -> Index) (ad : Row -> Index -> Index)
        (au : Row -> Row -> Index -> Index).

Record State := mkState { rows : list Row; index : Index }.

Inductive Stmt :=
| Insert (mk : Z -> Row)                     (** the row gets the next rowid *)
| Delete (where_ : Row -> bool)
| Update (where_ : Row -> bool) (set : Row -> Row).

Fixpoint delete_rows (p : Row -> bool) (rs : list Row) (ix : Index) : list Row * Index :=
  match rs with
  | [] => ([], ix)
  | r :: rs' =>
      if p r then delete_rows p rs' (ad r ix)
      else let '(kept, ix') := delete_rows p rs' ix in (r :: kept, ix')
  end.

Fixpoint update_rows (p : Row -> bool) (f : Row -> Row) (rs : list Row) (ix : Index) : list Row * Index :=
  match rs with
  | [] => ([], ix)
  | r :: rs' =>
      if p r then let '(rs'', ix') := update_rows p f rs' (au r (f r) ix) in (f r :: rs'', ix')
      else let '(rs'', ix') := update_rows p f rs' ix in (r :: rs'', ix')
  end.

Definition exec_stmt (s : State) (x : Stmt) : State :=
  match x with
  | Insert mk =>
      let r := mk (max_rowid rowid s.(rows) + 1) in
      if valid (s.(rows) ++ [r])%list then mkState (s.(rows) ++ [r])%list (ai r s.(index)) else s
  | Delete p => let '(rs, ix) := delete_rows p s.(rows) s.(index) in mkState rs ix
  | Update p f =>
      let '(rs, ix) := update_rows p f s.(rows) s.(index) in
      if valid rs then mkState rs ix else s
  end.

Definition exec (s : State) (xs : list Stmt) : State := fold_left exec_stmt xs s.
End Table.

Arguments mkState {Row}.

Definition bookmark_entry (b : Bookmark) : Z * list string := (b.(b_rowid), [b.(b_title); b.(b_url); b.(b_content)]).
Definition thought_entry (t : Thought) : Z * list string := (t.(t_rowid), [t.(t_title); t.(t_content)]).

(** [id PRIMARY KEY], [url UNIQUE] / [title UNIQUE]. *)
Definition bookmarks_valid (rs : list Bookmark) : bool := unique_on b_id rs && unique_on b_url rs.
Definition thoughts_valid (rs : list Thought) : bool := unique_on t_id rs && unique_on t_title rs.

(** The index holds exactly one entry per base row (as a multiset). *)
Definition mirrors {Row : Type} (entry : Row -> Z * list string) (s : State (Row := Row)) : Prop :=
  Permutation s.(index) (map entry s.(rows)).

Definition empty_state {Row : Type} : State (Row := Row) := mkState [] [].

Definition exec_bookmarks := exec b_rowid bookmarks_valid bookmarks_ai bookmarks_ad bookmarks_au.
Definition exec_thoughts := exec t_rowid thoughts_valid thoughts_ai thoughts_ad thoughts_au.
End FTS.

(** ** Concrete collaborators, for examples and witnesses *)

Definition digit (n : nat) : string := String (ascii_of_nat (48 + n)) "".

Definition test_env (d : DoResult) (p : ParsedFeed.t + string) : Env :=
  mkEnv (fun n => 1000 + Z.of_nat n) (fun n => "uuid" ++ digit n)
        (fun m u => inl (mkRequest m u [])) (fun _ => d) (fun _ => p)
        (fun s => s) (fun _ => "date") "bookmarks".

Definition st0 : St := mkSt 0 0.

Definition mkfeed (id url title : string) : Feed.t :=
  Feed.mk id 0 0 0 0 title url "" None [].

Definition mkitem (id : string) (date : Z) : FeedItem.t := FeedItem.mk id 0 0 "" "" date "".

(** ** Auxiliary definitions for the statements *)

Definition persist_select (u : string) : Query := QSelect ["id"; "created"] [CondURL u].

Definition update_rows_by_id (f : Feed.t) (rows : list Feed.t) : list Feed.t :=
  map (fun r => if String.eqb r.(Feed.ID) f.(Feed.ID) then update_row f r else r) rows.

Definition count_url (u : string) (rows : list Feed.t) : nat :=
  List.length (filter (fun r => String.eqb r.(Feed.URL) u) rows).

(** Every row with url [u] has id [x]. *)
Definition url_owned_by (u x : string) (rows : list Feed.t) : Prop :=
  forall r, In r rows -> r.(Feed.URL) = u -> r.(Feed.ID) = x.

(** The schema constraints of [feeds] ([id] PRIMARY KEY, [url] UNIQUE), and
    no row with an empty id. *)
Definition feeds_ok (rows : list Feed.t) : Prop :=
  NoDup (map Feed.ID rows) /\ NoDup (map Feed.URL rows) /\ ~ In "" (map Feed.ID rows).

(** The acceptance rule in the words of the spec: keep an entry unless its
    Date is strictly before Refreshed or strictly after "now". *)
Definition accept_rule_spec (refreshed now date : Z) : bool :=
  negb (date <? refreshed) && negb (now <? date).

(** The loop of [Fetch] observed: each parsed entry's [feedItem] with the
    clock tick that [time.Now()] at line 118 reads (the tick current when
    the check runs), the state advancing exactly as in [fetch_loop]. *)
Fixpoint fetch_trace (env : Env) (refreshed : Z) (entries : list ParsedItem.t) (s : St)
    : list (FeedItem.t * nat) :=
  match entries with
  | [] => []
  | item :: entries' =>
      let '(feedItem, s1) := build_feed_item env item s in
      (feedItem, ticks s1) :: fetch_trace env refreshed entries' (snd (keep_item env refreshed feedItem s1))
  end.

Definition mkentry (title : string) (date : option Z) : ParsedItem.t :=
  ParsedItem.mk title "" "" "" date None.

Example DeleteItem_ex :
  DeleteItem (Feed.set_Items (mkfeed "f" "u" "") [mkitem "a" 1; mkitem "b" 2; mkitem "a" 3]) "a"
  = (None, Feed.set_Items (mkfeed "f" "u" "") [mkitem "b" 2; mkitem "a" 3]).
Proof. reflexivity. Qed.

(** ** Theorems *)

Lemma Feed_set_Items_same (f : Feed.t) : Feed.set_Items f f.(Feed.Items) = f.
Proof. destruct f; reflexivity. Qed.

Lemma skipn_cons_S {A} (l : list A) i x rest :
  skipn i l = x :: rest -> skipn (S i) l = rest.
Proof.
  revert i. induction l as [|y l IH]; intros [|i] H; simpl in *; try discriminate.
  - now inversion H.
  - now apply IH.
Qed.

Lemma firstn_cons_S {A} (l : list A) i x rest :
  skipn i l = x :: rest -> firstn (S i) l = (firstn i l ++ [x])%list.
Proof.
  revert i. induction l as [|y l IH]; intros [|i] H; simpl in *; try discriminate.
  - inversion H; subst. reflexivity.
  - f_equal. now apply IH.
Qed.

Lemma delete_item_loop_spec ID all i rest :
  skipn i all = rest ->
  Forall (fun y => y.(FeedItem.ID) <> ID) (firstn i all) ->
  (exists pre x post, all = (pre ++ x :: post)%list /\ x.(FeedItem.ID) = ID /\
     Forall (fun y => y.(FeedItem.ID) <> ID) pre /\
     delete_item_loop ID all i rest = (None, (pre ++ post)%list)) \/
  (Forall (fun y => y.(FeedItem.ID) <> ID) all /\
     delete_item_loop ID all i rest = (Some ErrNotExistingFeedItem, all)).
Proof.
  revert i. induction rest as [|item rest IH]; intros i Hs Hpre; simpl.
  - right. split; [|reflexivity].
    rewrite <- (firstn_skipn i all), Hs, app_nil_r. exact Hpre.
  - destruct (String.eqb ID (FeedItem.ID item)) eqn:E; simpl.
    + apply String.eqb_eq in E. left.
      exists (firstn i all), item, rest. repeat split; auto.
      * rewrite <- (firstn_skipn i all) at 1. now rewrite Hs.
      * pose proof (skipn_cons_S _ _ _ _ Hs) as Hs'. simpl in Hs'. now rewrite Hs'.
    + apply IH.
      * exact (skipn_cons_S _ _ _ _ Hs).
      * rewrite (firstn_cons_S _ _ _ _ Hs). apply Forall_app. split; auto.
        constructor; [|constructor]. intro H. subst. now rewrite String.eqb_refl in E.
Qed.

(** C10: [DeleteItem] removes exactly the first item whose ID equals the
    argument, keeping the order of the others, and returns nil; when no item
    has that ID it returns [ErrNotExistingFeedItem] and leaves the feed as it
    was. *)
Theorem DeleteItem_removes_first_match (feed : Feed.t) (ID : string) :
  (exists pre x post,
     feed.(Feed.Items) = (pre ++ x :: post)%list /\ x.(FeedItem.ID) = ID /\
     Forall (fun y => y.(FeedItem.ID) <> ID) pre /\
     DeleteItem feed ID = (None, Feed.set_Items feed (pre ++ post)%list)) \/
  (Forall (fun y => y.(FeedItem.ID) <> ID) feed.(Feed.Items) /\
     DeleteItem feed ID = (Some ErrNotExistingFeedItem, feed)).
Proof.
  unfold DeleteItem.
  destruct (delete_item_loop_spec ID feed.(Feed.Items) 0 feed.(Feed.Items) eq_refl (Forall_nil _))
    as [(pre & x & post & H1 & H2 & H3 & H4) | (H1 & H2)].
  - left. exists pre, x, post. rewrite H4. auto.
  - right. rewrite H2, Feed_set_Items_same. auto.
Qed.

(** C9: with an empty URL, [FeedPersist] returns [ErrNoFeedURL] first: the
    feed is returned untouched (no defaulting), the table is untouched, no
    statement is issued and neither the clock nor the UUID generator is
    read. *)
Theorem FeedPersist_empty_url_untouched (env : Env) (feed : Feed.t) (w : World) :
  feed.(Feed.URL) = "" ->
  FeedPersist env feed w = (Some ErrNoFeedURL, feed, w).
Proof. intros H. unfold FeedPersist. now rewrite H. Qed.

Lemma FeedPersist_empty_url_untouched_witness :
  FeedPersist (test_env (DoErr "" None) (inr "")) (mkfeed "" "" "") (mkWorld [] [] st0)
  = (Some ErrNoFeedURL, mkfeed "" "" "", mkWorld [] [] st0).
Proof. apply FeedPersist_empty_url_untouched. reflexivity. Defined.

(** C1 (defect): for a feed with an empty ID, a non-empty URL and an empty
    Title, [FeedDelete] builds no WHERE clause (line 314 tests [feed.Title]
    where [feed.URL] is meant) and deletes every row of [feeds], including
    rows whose url differs from the feed's URL. *)
Theorem FeedDelete_empty_title_deletes_all_rows :
  let w := mkWorld [mkfeed "id1" "http://a/feed.xml" "A"; mkfeed "id2" "http://b/feed.xml" "B"] [] st0 in
  FeedDelete (mkfeed "" "http://a/feed.xml" "") w
  = (None, mkWorld [] [QDelete []] st0).
Proof. reflexivity. Qed.

(** C4 (defect): the tag predicates of [FeedList] read [thoughts.tags], a
    column of a table that is not in [FROM feeds]; SQLite refuses the query
    and [FeedList] returns no feed and a zero count, although a stored feed
    is tagged "tech" and not "muted". *)
Theorem FeedList_tag_filter_reads_thoughts :
  let tech := Feed.mk "id1" 1 1 1 1 "Tech" "http://a/feed.xml" "" (Some ["tech"]) [] in
  let opts := mkFeedListOptions "" (Some ["-muted"; "tech"]) 0 (-1) 0 in
  let '(feeds, totalCount, _) := FeedList opts (mkWorld [tech] [] st0) in
  feeds = [] /\ totalCount = 0 /\
  existsb (String.eqb "tech") (tags_of tech.(Feed.Tags)) = true /\
  existsb (String.eqb "muted") (tags_of tech.(Feed.Tags)) = false.
Proof. simpl. repeat split; reflexivity. Qed.

Lemma persist_defaults_keys (env : Env) (feed : Feed.t) (s : St) :
  (fst (persist_defaults env feed s)).(Feed.URL) = feed.(Feed.URL) /\
  (fst (persist_defaults env feed s)).(Feed.ID) = feed.(Feed.ID) /\
  uuids (snd (persist_defaults env feed s)) = uuids s.
Proof.
  unfold persist_defaults.
  repeat (simpl; match goal with
                 | |- context [if ?b then _ else _] => destruct b
                 | |- context [match ?t with Some _ => _ | None => _ end] => destruct t
                 end); simpl; auto.
Qed.

Lemma FeedPersist_unfold (env : Env) (feed : Feed.t) (w : World) :
  feed.(Feed.URL) <> "" ->
  FeedPersist env feed w =
    (let '(feed, s) := persist_defaults env feed w.(st) in
     let w := log_query (with_st w s) (QSelect ["id"; "created"] [CondURL feed.(Feed.URL)]) in
     let feed := lookup_by_url feed w.(db) in
     if String.eqb feed.(Feed.ID) "" then
       let '(id, s) := generateUUID env w.(st) in
       let feed := Feed.set_ID feed id in
       let w := log_query (with_st w s) (QInsert feed) in
       match insert_feed feed w.(db) with
       | inr e => (Some e, feed, w)
       | inl rows => (None, feed, set_db w rows)
       end
     else
       let w := log_query w (QUpdate feed.(Feed.ID)) in
       match update_feed feed w.(db) with
       | inr e => (Some e, feed, w)
       | inl rows => (None, feed, set_db w rows)
       end).
Proof. intros H. unfold FeedPersist. apply String.eqb_neq in H. now rewrite H. Qed.

Lemma find_url_none (u : string) (rows : list Feed.t) :
  Forall (fun r => r.(Feed.URL) <> u) rows ->
  find (fun r => String.eqb r.(Feed.URL) u) rows = None.
Proof.
  induction 1 as [|r rs Hr _ IH]; simpl; auto.
  apply String.eqb_neq in Hr. now rewrite Hr.
Qed.

Lemma existsb_id_false (id : string) (rows : list Feed.t) :
  ~ In id (map Feed.ID rows) ->
  existsb (fun r => String.eqb r.(Feed.ID) id) rows = false.
Proof.
  induction rows as [|r rs IH]; simpl; auto. intros H.
  destruct (String.eqb_spec (Feed.ID r) id); [tauto|]. simpl. apply IH. tauto.
Qed.

Lemma existsb_url_false (u : string) (rows : list Feed.t) (p : Feed.t -> bool) :
  Forall (fun r => r.(Feed.URL) <> u) rows ->
  existsb (fun r => p r && String.eqb r.(Feed.URL) u) rows = false.
Proof.
  induction 1 as [|r rs Hr _ IH]; simpl; auto.
  apply String.eqb_neq in Hr. rewrite Hr, andb_false_r. exact IH.
Qed.

Lemma insert_fresh (id u : string) (rows : list Feed.t) :
  ~ In id (map Feed.ID rows) ->
  Forall (fun r => r.(Feed.URL) <> u) rows ->
  existsb (fun r => String.eqb r.(Feed.ID) id || String.eqb r.(Feed.URL) u) rows = false.
Proof.
  intros Hid Hu. induction Hu as [|r rs Hr _ IH]; simpl in *; auto.
  destruct (String.eqb_spec (Feed.ID r) id); [tauto|].
  apply String.eqb_neq in Hr. rewrite Hr. simpl. apply IH. tauto.
Qed.

(** C7 (as the code has it): when no row has the feed's URL, a call that
    supplies no ID generates a fresh ID and inserts the whole defaulted feed;
    a call that supplies an ID generates none and issues an UPDATE keyed by
    that ID instead, which inserts nothing. *)
Theorem FeedPersist_url_not_found (env : Env) (feed : Feed.t) (w : World) :
  feed.(Feed.URL) <> "" ->
  Forall (fun r => r.(Feed.URL) <> feed.(Feed.URL)) w.(db) ->
  let f := fst (persist_defaults env feed w.(st)) in
  let s := snd (persist_defaults env feed w.(st)) in
  (feed.(Feed.ID) = "" -> ~ In (uuid env (uuids w.(st))) (map Feed.ID w.(db)) ->
     FeedPersist env feed w =
       (None, Feed.set_ID f (uuid env (uuids w.(st))),
        mkWorld (w.(db) ++ [Feed.set_ID f (uuid env (uuids w.(st)))])%list
                (w.(qlog) ++ [persist_select feed.(Feed.URL); QInsert (Feed.set_ID f (uuid env (uuids w.(st))))])%list
                (mkSt (ticks s) (S (uuids w.(st)))))) /\
  (feed.(Feed.ID) <> "" ->
     FeedPersist env feed w =
       (None, f, mkWorld (update_rows_by_id f w.(db))
                         (w.(qlog) ++ [persist_select feed.(Feed.URL); QUpdate feed.(Feed.ID)])%list s)).
Proof.
  intros Hu Hnone.
  destruct (persist_defaults_keys env feed w.(st)) as (HU & HI & HS).
  rewrite (FeedPersist_unfold env feed w Hu).
  destruct (persist_defaults env feed (st w)) as [f s]. simpl in HU, HI, HS |- *.
  unfold lookup_by_url. simpl. rewrite HU, (find_url_none _ _ Hnone). rewrite HI.
  split.
  - intros Hid Hfresh. rewrite Hid. simpl. rewrite HS.
    unfold insert_feed. simpl.
    rewrite HU, (insert_fresh _ _ _ Hfresh Hnone).
    unfold set_db, log_query, with_st. simpl. now rewrite <- app_assoc.
  - intros Hid. apply String.eqb_neq in Hid. rewrite Hid. simpl.
    unfold update_feed. simpl. rewrite HU, (existsb_url_false _ _ _ Hnone), andb_false_r.
    unfold set_db, log_query, with_st. simpl. now rewrite <- app_assoc.
Qed.

Lemma FeedPersist_url_not_found_witness :
  let env := test_env (DoErr "" None) (inr "") in
  let feed := mkfeed "x" "http://a/feed.xml" "" in
  let w := mkWorld [] [] st0 in
  let f := fst (persist_defaults env feed w.(st)) in
  let s := snd (persist_defaults env feed w.(st)) in
  (feed.(Feed.ID) = "" -> ~ In (uuid env (uuids w.(st))) (map Feed.ID w.(db)) ->
     FeedPersist env feed w =
       (None, Feed.set_ID f (uuid env (uuids w.(st))),
        mkWorld (w.(db) ++ [Feed.set_ID f (uuid env (uuids w.(st)))])%list
                (w.(qlog) ++ [persist_select feed.(Feed.URL); QInsert (Feed.set_ID f (uuid env (uuids w.(st))))])%list
                (mkSt (ticks s) (S (uuids w.(st)))))) /\
  (feed.(Feed.ID) <> "" ->
     FeedPersist env feed w =
       (None, f, mkWorld (update_rows_by_id f w.(db))
                         (w.(qlog) ++ [persist_select feed.(Feed.URL); QUpdate feed.(Feed.ID)])%list s)).
Proof.
  intros env feed w.
  exact (FeedPersist_url_not_found env feed w ltac:(discriminate) (Forall_nil _)).
Defined.

(** C7 as stated fails: a call that supplies the ID "x" on an empty table
    finds no row by URL, yet it inserts nothing; it issues an UPDATE keyed by
    "x" and the table stays empty. *)
Lemma FeedPersist_supplied_id_not_inserted :
  let r := FeedPersist (test_env (DoErr "" None) (inr "")) (mkfeed "x" "http://a/feed.xml" "") (mkWorld [] [] st0) in
  fst (fst r) = None /\ (snd (fst r)).(Feed.ID) = "x" /\
  (snd r).(db) = [] /\ (snd r).(qlog) = [persist_select "http://a/feed.xml"; QUpdate "x"].
Proof. repeat split; reflexivity. Qed.

(** *** Identity resolution by URL *)

Lemma nodup_map_eq {A B} (f : A -> B) (l : list A) (a b : A) :
  NoDup (map f l) -> In a l -> In b l -> f a = f b -> a = b.
Proof.
  induction l as [|y l IH]; simpl; [tauto|]. intros Hnd Ha Hb Heq.
  inversion Hnd as [|? ? Hy Hnd']; subst.
  destruct Ha as [<-|Ha], Hb as [<-|Hb]; auto.
  - exfalso. apply Hy. rewrite Heq. now apply in_map.
  - exfalso. apply Hy. rewrite <- Heq. now apply in_map.
Qed.

Lemma update_rows_ids (f : Feed.t) (rows : list Feed.t) :
  map Feed.ID (update_rows_by_id f rows) = map Feed.ID rows.
Proof.
  induction rows as [|r rs IH]; simpl; auto.
  destruct (String.eqb (Feed.ID r) (Feed.ID f)); simpl; now rewrite IH.
Qed.

Lemma update_rows_origin (f : Feed.t) (rows : list Feed.t) (r' : Feed.t) :
  In r' (update_rows_by_id f rows) ->
  exists r, In r rows /\ r'.(Feed.ID) = r.(Feed.ID) /\ r'.(Feed.Created) = r.(Feed.Created).
Proof.
  unfold update_rows_by_id. rewrite in_map_iff. intros (r & <- & Hr).
  exists r. destruct (String.eqb (Feed.ID r) (Feed.ID f)); simpl; auto.
Qed.

Lemma update_rows_owned (f : Feed.t) (u : string) (rows : list Feed.t) :
  url_owned_by u f.(Feed.ID) rows ->
  url_owned_by u f.(Feed.ID) (update_rows_by_id f rows).
Proof.
  intros Hown r'. unfold update_rows_by_id. rewrite in_map_iff. intros (r & <- & Hr).
  destruct (String.eqb_spec (Feed.ID r) (Feed.ID f)) as [E|E]; simpl; auto.
Qed.

Lemma update_feed_ok (f : Feed.t) (rows : list Feed.t) :
  url_owned_by f.(Feed.URL) f.(Feed.ID) rows ->
  update_feed f rows = inl (update_rows_by_id f rows).
Proof.
  intros Hown. unfold update_feed.
  replace (existsb (fun r => negb (String.eqb (Feed.ID r) (Feed.ID f)) && String.eqb (Feed.URL r) (Feed.URL f)) rows)
    with false; [now rewrite andb_false_r|].
  symmetry. apply Bool.not_true_iff_false. rewrite existsb_exists.
  intros (r & Hr & H). apply andb_true_iff in H as [H1 H2].
  apply String.eqb_eq in H2. rewrite (Hown r Hr H2), String.eqb_refl in H1. discriminate.
Qed.

Lemma insert_feed_ok (f : Feed.t) (rows : list Feed.t) :
  ~ In f.(Feed.ID) (map Feed.ID rows) ->
  Forall (fun r => r.(Feed.URL) <> f.(Feed.URL)) rows ->
  insert_feed f rows = inl (rows ++ [f])%list.
Proof. intros H1 H2. unfold insert_feed. now rewrite (insert_fresh _ _ _ H1 H2). Qed.

Lemma update_count (f : Feed.t) (u : string) (rows : list Feed.t) :
  NoDup (map Feed.ID rows) -> In f.(Feed.ID) (map Feed.ID rows) ->
  url_owned_by u f.(Feed.ID) rows -> f.(Feed.URL) = u ->
  count_url u (update_rows_by_id f rows) = 1%nat.
Proof.
  unfold count_url, url_owned_by.
  induction rows as [|r rs IH]; simpl; [tauto|]. intros Hnd Hin Hown Hf.
  inversion Hnd as [|? ? Hr Hnd']; subst.
  destruct (String.eqb_spec (Feed.ID r) (Feed.ID f)) as [E|E]; simpl.
  - rewrite String.eqb_refl. simpl. f_equal.
    (* no other row has the id, so none other has the url *)
    assert (Hz : forall r', In r' rs -> String.eqb (Feed.URL r') (Feed.URL f) = false).
    { intros r' Hr'. apply String.eqb_neq. intros Hu.
      apply Hr. rewrite E, <- (Hown r' (or_intror Hr') Hu). now apply in_map. }
    clear - Hz Hr E. induction rs as [|r' rs IH]; simpl; auto.
    assert (Ne : Feed.ID r' <> Feed.ID f).
    { intros Heq. apply Hr. simpl. left. now rewrite E. }
    apply String.eqb_neq in Ne. rewrite Ne. rewrite (Hz r' (or_introl eq_refl)).
    apply IH; [simpl in Hr; tauto | intros x Hx; apply Hz; now right].
  - destruct (String.eqb_spec (Feed.URL r) (Feed.URL f)) as [U|U].
    + exfalso. apply E. apply Hown; auto.
    + apply IH; auto. destruct Hin; [congruence | auto].
Qed.

Lemma find_url_some (u : string) (rows : list Feed.t) (r : Feed.t) :
  In r rows -> r.(Feed.URL) = u ->
  exists r', find (fun r => String.eqb r.(Feed.URL) u) rows = Some r'.
Proof.
  intros Hr Hu. destruct (find (fun r => String.eqb r.(Feed.URL) u) rows) eqn:E; eauto.
  exfalso. pose proof (find_none _ _ E r Hr) as H. simpl in H.
  rewrite Hu, String.eqb_refl in H. discriminate.
Qed.

Lemma update_rows_urls (f : Feed.t) (rows : list Feed.t) :
  (forall r, In r rows -> r.(Feed.ID) = f.(Feed.ID) -> r.(Feed.URL) = f.(Feed.URL)) ->
  map Feed.URL (update_rows_by_id f rows) = map Feed.URL rows.
Proof.
  induction rows as [|r rs IH]; simpl; intros H; auto.
  destruct (String.eqb_spec (Feed.ID r) (Feed.ID f)) as [E|E]; simpl.
  - rewrite (H r (or_introl eq_refl) E), IH; auto.
  - rewrite IH; auto.
Qed.

Lemma count_url_none (u : string) (rows : list Feed.t) :
  Forall (fun r => r.(Feed.URL) <> u) rows -> count_url u rows = 0%nat.
Proof.
  unfold count_url. induction 1 as [|r rs Hr _ IH]; simpl; auto.
  apply String.eqb_neq in Hr. now rewrite Hr.
Qed.

Lemma nodup_snoc {A} (l : list A) (x : A) : NoDup l -> ~ In x l -> NoDup (l ++ [x])%list.
Proof.
  induction 1 as [|y l Hy Hnd IH]; simpl; intros Hx.
  - constructor; [intros []|constructor].
  - constructor.
    + rewrite in_app_iff. simpl. intros [H|[H|[]]]; [tauto | apply Hx; now left].
    + apply IH. tauto.
Qed.

(** One [FeedPersist] without an ID on a well-formed table. *)
Lemma FeedPersist_no_id (env : Env) (feed : Feed.t) (w : World) :
  feed.(Feed.URL) <> "" -> feed.(Feed.ID) = "" -> feeds_ok w.(db) ->
  (Forall (fun r => r.(Feed.URL) <> feed.(Feed.URL)) w.(db) ->
     ~ In (uuid env (uuids w.(st))) (map Feed.ID w.(db)) /\ uuid env (uuids w.(st)) <> "") ->
  let '(e, f, w') := FeedPersist env feed w in
  e = None /\
  (forall r, In r w.(db) -> r.(Feed.URL) = feed.(Feed.URL) ->
     f.(Feed.ID) = r.(Feed.ID) /\ f.(Feed.Created) = r.(Feed.Created)) /\
  feeds_ok w'.(db) /\
  (forall r, In r w'.(db) -> r.(Feed.URL) = feed.(Feed.URL) ->
     r.(Feed.ID) = f.(Feed.ID) /\ r.(Feed.Created) = f.(Feed.Created)) /\
  count_url feed.(Feed.URL) w'.(db) = 1%nat.
Proof.
  intros Hu Hid (Hids & Hurls & Hne) Hfresh.
  destruct (persist_defaults_keys env feed w.(st)) as (HU & HI & HS).
  rewrite (FeedPersist_unfold env feed w Hu).
  destruct (persist_defaults env feed (st w)) as [fd s]. simpl in HU, HI, HS |- *.
  unfold lookup_by_url. simpl. rewrite HU.
  destruct (find (fun r => String.eqb (Feed.URL r) (Feed.URL feed)) (db w)) as [r0|] eqn:Hfind.
  - apply find_some in Hfind as [Hr0 Hu0]. apply String.eqb_eq in Hu0.
    assert (Huniq : forall r, In r (db w) -> Feed.URL r = Feed.URL feed -> r = r0)
      by (intros r Hr Hur; apply (nodup_map_eq Feed.URL (db w)); congruence).
    assert (Hne0 : String.eqb (Feed.ID r0) "" = false).
    { apply String.eqb_neq. intros E. apply Hne. rewrite <- E. now apply in_map. }
    simpl. rewrite Hne0.
    set (f := Feed.set_Created (Feed.set_ID fd (Feed.ID r0)) (Feed.Created r0)).
    assert (HfU : Feed.URL f = Feed.URL feed) by exact HU.
    assert (Hown : url_owned_by (Feed.URL f) (Feed.ID f) (db w)).
    { intros r Hr Hur. rewrite HfU in Hur. now rewrite (Huniq r Hr Hur). }
    rewrite (update_feed_ok f (db w) Hown). simpl.
    assert (Hsame : forall r, In r (db w) -> Feed.ID r = Feed.ID f -> Feed.URL r = Feed.URL f).
    { intros r Hr Hir. rewrite (nodup_map_eq Feed.ID (db w) r r0 Hids Hr Hr0 Hir). congruence. }
    split; [reflexivity|]. split; [|split; [|split]].
    + intros r Hr Hur. rewrite (Huniq r Hr Hur). split; reflexivity.
    + unfold feeds_ok. rewrite update_rows_ids, (update_rows_urls f (db w) Hsame). auto.
    + intros r' Hr' Hur'.
      split.
      * apply (update_rows_owned f (Feed.URL feed) (db w)); auto.
        intros r Hr Hur. now rewrite (Huniq r Hr Hur).
      * destruct (update_rows_origin f (db w) r' Hr') as (r & Hr & Hi & Hc).
        assert (Hid' : Feed.ID r' = Feed.ID f).
        { apply (update_rows_owned f (Feed.URL feed) (db w)); auto.
          intros x Hx Hux. now rewrite (Huniq x Hx Hux). }
        rewrite Hc. rewrite (nodup_map_eq Feed.ID (db w) r r0 Hids Hr Hr0 ltac:(simpl in *; congruence)).
        reflexivity.
    + apply update_count;
        [exact Hids | change (In (Feed.ID r0) (map Feed.ID (db w))); now apply in_map
        | rewrite <- HfU; exact Hown | exact HfU].
  - assert (Hnone : Forall (fun r => Feed.URL r <> Feed.URL feed) (db w)).
    { apply Forall_forall. intros r Hr E. pose proof (find_none _ _ Hfind r Hr) as H. simpl in H.
      rewrite E, String.eqb_refl in H. discriminate. }
    destruct (Hfresh Hnone) as [Hnew Hnonempty].
    rewrite HI, Hid. simpl. rewrite HS.
    set (f := Feed.set_ID fd (uuid env (uuids (st w)))).
    assert (HfU : Feed.URL f = Feed.URL feed) by exact HU.
    rewrite (insert_feed_ok f (db w)); [simpl | exact Hnew | now rewrite HfU].
    split; [reflexivity|]. split; [|split; [|split]].
    + intros r Hr Hur. exfalso. exact (proj1 (Forall_forall _ _) Hnone r Hr Hur).
    + unfold feeds_ok. rewrite !map_app. simpl. split; [|split].
      * now apply nodup_snoc.
      * apply nodup_snoc; auto. change (Feed.URL fd) with (Feed.URL f). rewrite HfU. intros Hin.
        apply in_map_iff in Hin as (r & E & Hr). exact (proj1 (Forall_forall _ _) Hnone r Hr E).
      * rewrite in_app_iff. simpl. intros [H|[H|[]]]; [exact (Hne H) | exact (Hnonempty H)].
    + intros r Hr Hur. apply in_app_iff in Hr as [Hr|[<-|[]]].
      * exfalso. exact (proj1 (Forall_forall _ _) Hnone r Hr Hur).
      * split; reflexivity.
    + unfold count_url in *. rewrite filter_app. simpl. change (Feed.URL fd) with (Feed.URL f). rewrite HfU, String.eqb_refl.
      rewrite length_app. pose proof (count_url_none _ _ Hnone) as Hc. unfold count_url in Hc. rewrite Hc. reflexivity.
Qed.

Lemma count_url_witness (u : string) (rows : list Feed.t) :
  count_url u rows = 1%nat -> exists r, In r rows /\ r.(Feed.URL) = u.
Proof.
  unfold count_url. destruct (filter _ rows) as [|r l] eqn:E; simpl; [discriminate|]. intros _.
  assert (Hr : In r (filter (fun r => String.eqb r.(Feed.URL) u) rows)) by (rewrite E; now left).
  apply filter_In in Hr as [Hr Hu]. apply String.eqb_eq in Hu. eauto.
Qed.

Lemma persist_defaults_set_ID (env : Env) (feed : Feed.t) (x : string) (s : St) :
  persist_defaults env (Feed.set_ID feed x) s =
  (Feed.set_ID (fst (persist_defaults env feed s)) x, snd (persist_defaults env feed s)).
Proof.
  destruct feed as [id cr up rf la ti u et tg its]. unfold persist_defaults. simpl.
  destruct (String.eqb ti ""); simpl; destruct (cr =? 0); simpl; destruct (rf =? 0); simpl;
    destruct tg; reflexivity.
Qed.

(** When a row already has the feed's URL, the ID the caller supplies plays
    no part: the lookup at line 266 replaces it. *)
Lemma FeedPersist_url_found_ignores_id (env : Env) (feed : Feed.t) (w : World) (r0 : Feed.t) :
  feed.(Feed.URL) <> "" -> In r0 w.(db) -> r0.(Feed.URL) = feed.(Feed.URL) ->
  FeedPersist env feed w = FeedPersist env (Feed.set_ID feed "") w.
Proof.
  intros Hu Hr0 Hur.
  rewrite (FeedPersist_unfold env feed w Hu), (FeedPersist_unfold env (Feed.set_ID feed "") w Hu).
  rewrite persist_defaults_set_ID.
  destruct (persist_defaults_keys env feed w.(st)) as (HU & _).
  destruct (persist_defaults env feed (st w)) as [fd s]. simpl in HU |- *.
  unfold lookup_by_url. simpl.
  destruct (find_url_some (Feed.URL fd) (db w) r0 Hr0 ltac:(congruence)) as (r' & ->).
  reflexivity.
Qed.

Lemma in_update_urls (f : Feed.t) (rows : list Feed.t) (a : string) :
  In a (map Feed.URL (update_rows_by_id f rows)) -> a = f.(Feed.URL) \/ In a (map Feed.URL rows).
Proof.
  unfold update_rows_by_id. rewrite map_map, in_map_iff. intros (r & <- & Hr).
  destruct (String.eqb (Feed.ID r) (Feed.ID f)); simpl; [now left|right; now apply in_map].
Qed.

Lemma nodup_update_urls (f : Feed.t) (rows : list Feed.t) :
  NoDup (map Feed.ID rows) -> NoDup (map Feed.URL rows) ->
  Forall (fun r => r.(Feed.URL) <> f.(Feed.URL)) rows ->
  NoDup (map Feed.URL (update_rows_by_id f rows)).
Proof.
  induction rows as [|r rs IH]; simpl; intros Hids Hurls Hnone; [constructor|].
  inversion Hids as [|? ? Hi Hids']; inversion Hurls as [|? ? Hu Hurls']; inversion Hnone as [|? ? Hr Hnone']; subst.
  destruct (String.eqb_spec (Feed.ID r) (Feed.ID f)) as [E|E]; simpl.
  - assert (Hsame : update_rows_by_id f rs = rs).
    { clear - Hi E. induction rs as [|r' rs IH']; simpl in *; auto.
      destruct (String.eqb_spec (Feed.ID r') (Feed.ID f)) as [E'|E']; [exfalso; apply Hi; left; congruence|].
      f_equal. apply IH'. tauto. }
    rewrite Hsame. constructor; auto.
    intros Hin. apply in_map_iff in Hin as (r' & Hu' & Hr').
    exact (proj1 (Forall_forall _ _) Hnone' r' Hr' Hu').
  - constructor; [|now apply IH].
    intros Hin. apply in_update_urls in Hin as [Hin|Hin]; [exact (Hr Hin)|exact (Hu Hin)].
Qed.

(** The first of two calls: it succeeds and leaves one row with its URL,
    owned by the ID it returns, when it supplies no ID, or an ID some row
    has, or when a row already has its URL. *)
Lemma FeedPersist_first_call (env : Env) (feed : Feed.t) (w : World) :
  feed.(Feed.URL) <> "" -> feeds_ok w.(db) ->
  ~ In (uuid env (uuids w.(st))) (map Feed.ID w.(db)) -> uuid env (uuids w.(st)) <> "" ->
  (feed.(Feed.ID) = "" \/ In feed.(Feed.ID) (map Feed.ID w.(db)) \/
   exists r, In r w.(db) /\ r.(Feed.URL) = feed.(Feed.URL)) ->
  let '(e, f, w') := FeedPersist env feed w in
  e = None /\ feeds_ok w'.(db) /\
  (forall r, In r w'.(db) -> r.(Feed.URL) = feed.(Feed.URL) -> r.(Feed.ID) = f.(Feed.ID)) /\
  count_url feed.(Feed.URL) w'.(db) = 1%nat /\
  ((feed.(Feed.ID) = "" \/ exists r, In r w.(db) /\ r.(Feed.URL) = feed.(Feed.URL)) ->
   forall r, In r w'.(db) -> r.(Feed.URL) = feed.(Feed.URL) -> r.(Feed.Created) = f.(Feed.Created)).
Proof.
  intros Hu Hok Hnew Hnonempty Hcase.
  destruct (find (fun r => String.eqb r.(Feed.URL) feed.(Feed.URL)) w.(db)) as [r0|] eqn:F.
  - apply find_some in F as [Hr0 Hu0]. apply String.eqb_eq in Hu0.
    rewrite (FeedPersist_url_found_ignores_id env feed w r0 Hu Hr0 Hu0).
    assert (Hfresh : Forall (fun r => r.(Feed.URL) <> (Feed.set_ID feed "").(Feed.URL)) w.(db) ->
                     ~ In (uuid env (uuids w.(st))) (map Feed.ID w.(db)) /\ uuid env (uuids w.(st)) <> "")
      by (intros _; auto).
    pose proof (FeedPersist_no_id env (Feed.set_ID feed "") w Hu eq_refl Hok Hfresh) as P.
    destruct (FeedPersist env (Feed.set_ID feed "") w) as [[e f] w'].
    simpl in P. destruct P as (He & _ & Hok' & Hown & Hc).
    split; [exact He|]. split; [exact Hok'|]. split; [|split; [exact Hc|]].
    + intros r Hr Hur. exact (proj1 (Hown r Hr Hur)).
    + intros _ r Hr Hur. exact (proj2 (Hown r Hr Hur)).
  - assert (Hnone : Forall (fun r => Feed.URL r <> Feed.URL feed) (db w)).
    { apply Forall_forall. intros r Hr E. pose proof (find_none _ _ F r Hr) as H. simpl in H.
      rewrite E, String.eqb_refl in H. discriminate. }
    destruct (String.eqb_spec (Feed.ID feed) "") as [Hid|Hid].
    + pose proof (FeedPersist_no_id env feed w Hu Hid Hok (fun _ => conj Hnew Hnonempty)) as P.
      destruct (FeedPersist env feed w) as [[e f] w'].
      destruct P as (He & _ & Hok' & Hown & Hc).
      split; [exact He|]. split; [exact Hok'|]. split; [|split; [exact Hc|]].
      * intros r Hr Hur. exact (proj1 (Hown r Hr Hur)).
      * intros _ r Hr Hur. exact (proj2 (Hown r Hr Hur)).
    + assert (Hin : In (Feed.ID feed) (map Feed.ID (db w))).
      { destruct Hcase as [H|[H|(r & Hr & Hur)]]; [contradiction|exact H|].
        exfalso. exact (proj1 (Forall_forall _ _) Hnone r Hr Hur). }
      destruct Hok as (Hids & Hurls & Hne).
      destruct (persist_defaults_keys env feed w.(st)) as (HU & HI & _).
      rewrite (FeedPersist_unfold env feed w Hu).
      destruct (persist_defaults env feed (st w)) as [fd s]. simpl in HU, HI |- *.
      unfold lookup_by_url. simpl. rewrite HU, F.
      assert (E : String.eqb (Feed.ID fd) "" = false) by (apply String.eqb_neq; congruence).
      rewrite E. simpl.
      assert (Hown : url_owned_by (Feed.URL fd) (Feed.ID fd) (db w)).
      { intros r Hr Hur. exfalso. exact (proj1 (Forall_forall _ _) Hnone r Hr ltac:(congruence)). }
      rewrite (update_feed_ok fd (db w) Hown). simpl.
      split; [reflexivity|]. split; [|split; [|split]].
      * unfold feeds_ok. rewrite update_rows_ids. split; [exact Hids|split; [|exact Hne]].
        apply nodup_update_urls; auto. rewrite HU. exact Hnone.
      * intros r Hr Hur. apply (update_rows_owned fd (Feed.URL feed) (db w)); auto.
        intros r' Hr' Hur'. exfalso. exact (proj1 (Forall_forall _ _) Hnone r' Hr' Hur').
      * apply update_count; auto; [congruence|].
        intros r' Hr' Hur'. exfalso. exact (proj1 (Forall_forall _ _) Hnone r' Hr' Hur').
      * intros [H|(r & Hr & Hur)]; [contradiction|].
        exfalso. exact (proj1 (Forall_forall _ _) Hnone r Hr Hur).
Qed.

(** C2 (as the code has it): on a [feeds] table that satisfies its
    constraints, take two [FeedPersist] calls with the same URL [u], the
    second supplying no ID. Suppose the first supplies no ID, or an ID some
    row has, or a row with url [u] already exists. Then both succeed, the
    second adopts the first one's ID and the Created time stored in the row
    with url [u] (the first one's Created unless the first call updated a
    row found by its ID), and exactly one row has url [u] afterwards. *)
Theorem FeedPersist_twice_same_url (env : Env) (u : string) (feed1 feed2 : Feed.t) (w : World) :
  u <> "" -> feed1.(Feed.URL) = u -> feed2.(Feed.URL) = u -> feed2.(Feed.ID) = "" ->
  feeds_ok w.(db) ->
  ~ In (uuid env (uuids w.(st))) (map Feed.ID w.(db)) -> uuid env (uuids w.(st)) <> "" ->
  (feed1.(Feed.ID) = "" \/ In feed1.(Feed.ID) (map Feed.ID w.(db)) \/
   exists r, In r w.(db) /\ r.(Feed.URL) = u) ->
  let '(e1, f1, w1) := FeedPersist env feed1 w in
  let '(e2, f2, w2) := FeedPersist env feed2 w1 in
  e1 = None /\ e2 = None /\ f2.(Feed.ID) = f1.(Feed.ID) /\
  (exists r, In r w1.(db) /\ r.(Feed.URL) = u /\ r.(Feed.ID) = f1.(Feed.ID) /\ f2.(Feed.Created) = r.(Feed.Created)) /\
  ((feed1.(Feed.ID) = "" \/ exists r, In r w.(db) /\ r.(Feed.URL) = u) -> f2.(Feed.Created) = f1.(Feed.Created)) /\
  count_url u w2.(db) = 1%nat.
Proof.
  intros Hu H1 H2 Hid2 Hok Hnew Hnonempty Hcase. subst u.
  pose proof (FeedPersist_first_call env feed1 w Hu Hok Hnew Hnonempty Hcase) as P1.
  destruct (FeedPersist env feed1 w) as [[e1 f1] w1].
  destruct P1 as (He1 & Hok1 & Hown1 & Hc1 & Hcr1).
  destruct (count_url_witness _ (db w1) Hc1) as (r & Hr & Hur).
  assert (Hfresh2 : Forall (fun r => Feed.URL r <> Feed.URL feed2) (db w1) ->
                    ~ In (uuid env (uuids (st w1))) (map Feed.ID (db w1)) /\ uuid env (uuids (st w1)) <> "").
  { intros Hn. exfalso. exact (proj1 (Forall_forall _ _) Hn r Hr ltac:(congruence)). }
  pose proof (FeedPersist_no_id env feed2 w1 ltac:(congruence) Hid2 Hok1 Hfresh2) as P2.
  destruct (FeedPersist env feed2 w1) as [[e2 f2] w2].
  destruct P2 as (He2 & Hadopt2 & _ & _ & Hc2). rewrite H2 in Hadopt2, Hc2.
  destruct (Hadopt2 r Hr Hur) as [Ei Ec]. pose proof (Hown1 r Hr Hur) as Ei'.
  split; [exact He1|]. split; [exact He2|]. split; [congruence|]. split.
  - exists r. auto.
  - split; [|exact Hc2]. intros Hc. rewrite Ec. exact (Hcr1 Hc r Hr Hur).
Qed.

(** Two calls where the first supplies the ID of an existing row ("id0")
    whose url is another: the row is moved to [u] and the second call adopts
    "id0" and that row's original Created time. *)
Lemma FeedPersist_twice_same_url_witness :
  let env := test_env (DoErr "" None) (inr "") in
  let w := mkWorld [Feed.mk "id0" 7 7 7 7 "B" "http://b/feed.xml" "" (Some []) []] [] st0 in
  ((snd (fst (FeedPersist env (mkfeed "" "http://a/feed.xml" "")
                (snd (FeedPersist env (mkfeed "id0" "http://a/feed.xml" "") w))))).(Feed.ID) = "id0" /\
   (snd (fst (FeedPersist env (mkfeed "" "http://a/feed.xml" "")
                (snd (FeedPersist env (mkfeed "id0" "http://a/feed.xml" "") w))))).(Feed.Created) = 7) /\
  let '(e1, f1, w1) := FeedPersist env (mkfeed "id0" "http://a/feed.xml" "") w in
  let '(e2, f2, w2) := FeedPersist env (mkfeed "" "http://a/feed.xml" "New") w1 in
  e1 = None /\ e2 = None /\ f2.(Feed.ID) = f1.(Feed.ID) /\
  (exists r, In r w1.(db) /\ r.(Feed.URL) = "http://a/feed.xml" /\ r.(Feed.ID) = f1.(Feed.ID) /\
     f2.(Feed.Created) = r.(Feed.Created)) /\
  (((mkfeed "id0" "http://a/feed.xml" "").(Feed.ID) = "" \/
    exists r, In r w.(db) /\ r.(Feed.URL) = "http://a/feed.xml") -> f2.(Feed.Created) = f1.(Feed.Created)) /\
  count_url "http://a/feed.xml" w2.(db) = 1%nat.
Proof.
  intros env w. split; [split; reflexivity|].
  apply (FeedPersist_twice_same_url env "http://a/feed.xml"); try reflexivity; try discriminate.
  - split; [repeat constructor; intros [] | split; [repeat constructor; intros [] | intros [H|[]]; discriminate]].
  - intros [H|[]]. discriminate.
  - right. left. now left.
Defined.

(** C2 as stated fails: when the first call supplies an ID ("x") that no row
    has, it inserts nothing; the second call, without an ID, inserts the row
    under a fresh ID, which differs from the first call's ID. *)
Lemma FeedPersist_second_call_new_id :
  let env := test_env (DoErr "" None) (inr "") in
  let r1 := FeedPersist env (mkfeed "x" "http://a/feed.xml" "") (mkWorld [] [] st0) in
  let r2 := FeedPersist env (mkfeed "" "http://a/feed.xml" "") (snd r1) in
  (snd (fst r1)).(Feed.ID) = "x" /\ (snd (fst r2)).(Feed.ID) = "uuid0" /\
  count_url "http://a/feed.xml" (snd r2).(db) = 1%nat.
Proof. repeat split; reflexivity. Qed.

(** *** Fetch *)

(** C6: on a 304 response [Fetch] returns nil and leaves the feed, and the
    clock and UUID counters, exactly as they were. *)
Theorem Fetch_not_modified_untouched (env : Env) (feed : Feed.t) (s : St) (request : Request) (response : Response) :
  feed.(Feed.URL) <> "" ->
  build_request env feed = inl request ->
  Do env request = DoOk response ->
  response.(StatusCode) = 304 ->
  Fetch env feed s = (FOk, feed, s).
Proof.
  intros Hu Hreq Hdo H304. unfold Fetch.
  apply String.eqb_neq in Hu. rewrite Hu, Hreq, Hdo, H304. reflexivity.
Qed.

Lemma Fetch_not_modified_untouched_witness :
  let env := test_env (DoOk (mkResponse 304 "" "")) (inr "") in
  let feed := Feed.mk "id1" 1 1 1 1 "A" "http://a/feed.xml" "abc" (Some []) [mkitem "i" 1] in
  Fetch env feed st0 = (FOk, feed, st0).
Proof.
  intros env feed.
  apply (Fetch_not_modified_untouched env feed st0
           (set_header "If-None-Match" "abc" (set_header "User-Agent" "bookmarks" (mkRequest "GET" "http://a/feed.xml" [])))
           (mkResponse 304 "" "")); reflexivity || discriminate.
Defined.

(** C3 (defect): when [client.Do] fails with a transport error (no
    response), line 71 reads [response.StatusCode] on the nil response and
    [Fetch] panics instead of returning the error. *)
Theorem Fetch_transport_error_panics :
  Fetch (test_env (DoErr "dial tcp: lookup a: no such host" None) (inr "")) (mkfeed "" "http://a/feed.xml" "") st0
  = (FPanic, mkfeed "" "http://a/feed.xml" "", st0).
Proof. reflexivity. Qed.

Lemma keep_item_rule (env : Env) (refreshed : Z) (feedItem : FeedItem.t) (s : St) :
  fst (keep_item env refreshed feedItem s) = accept_rule_spec refreshed (clk env (ticks s)) feedItem.(FeedItem.Date).
Proof.
  unfold keep_item, accept_rule_spec, now.
  destruct (FeedItem.Date feedItem <? refreshed); simpl; [reflexivity|].
  destruct (clk env (ticks s) <? FeedItem.Date feedItem); reflexivity.
Qed.

Lemma fetch_loop_trace (env : Env) (refreshed : Z) (entries : list ParsedItem.t) :
  forall items s,
  fst (fetch_loop env refreshed entries items s) =
    (items ++ map fst (filter (fun p => accept_rule_spec refreshed (clk env (snd p)) (fst p).(FeedItem.Date))
                              (fetch_trace env refreshed entries s)))%list.
Proof.
  induction entries as [|item entries IH]; intros items s; simpl.
  - now rewrite app_nil_r.
  - destruct (build_feed_item env item s) as [fi s1].
    pose proof (keep_item_rule env refreshed fi s1) as K.
    destruct (keep_item env refreshed fi s1) as [keep s2] eqn:E. simpl in K |- *.
    rewrite IH. rewrite <- K.
    destruct keep; simpl; [now rewrite <- app_assoc | reflexivity].
Qed.

(** C5: after a successful non-304 [Fetch], the items are the previous items
    followed by exactly those parsed entries whose Date is neither strictly
    before the feed's Refreshed nor strictly after the value of [time.Now()]
    when the check runs, in entry order, then stably sorted by Date
    descending. *)
Theorem Fetch_accepts_by_date_window (env : Env) (feed : Feed.t) (s : St) (request : Request)
    (response : Response) (parsedFeed : ParsedFeed.t) (feed' : Feed.t) (s' : St) :
  feed.(Feed.URL) <> "" ->
  build_request env feed = inl request ->
  Do env request = DoOk response ->
  response.(StatusCode) <> 304 ->
  Parse env response.(Body) = inl parsedFeed ->
  Fetch env feed s = (FOk, feed', s') ->
  feed'.(Feed.Items) =
    sort_stable date_after
      (feed.(Feed.Items) ++
       map fst (filter (fun p => accept_rule_spec feed.(Feed.Refreshed) (clk env (snd p)) (fst p).(FeedItem.Date))
                       (fetch_trace env feed.(Feed.Refreshed) parsedFeed.(ParsedFeed.Items) s)))%list.
Proof.
  intros Hu Hreq Hdo H304 Hparse Hfetch. unfold Fetch in Hfetch.
  apply String.eqb_neq in Hu. apply Z.eqb_neq in H304.
  rewrite Hu, Hreq, Hdo, H304, Hparse in Hfetch.
  pose proof (fetch_loop_trace env feed.(Feed.Refreshed) parsedFeed.(ParsedFeed.Items) feed.(Feed.Items) s) as L.
  destruct (fetch_loop env (Feed.Refreshed feed) (ParsedFeed.Items parsedFeed) (Feed.Items feed) s) as [items s1].
  simpl in L. subst items.
  destruct (negb (String.eqb (ParsedFeed.Updated parsedFeed) "")).
  - destruct (ParsedFeed.UpdatedParsed parsedFeed) as [t|]; [|discriminate].
    unfold fetch_finish in Hfetch. simpl in Hfetch.
    destruct (String.eqb (Feed.Title feed) ""); inversion Hfetch; reflexivity.
  - unfold fetch_finish in Hfetch. simpl in Hfetch.
    destruct (String.eqb (Feed.Title feed) ""); inversion Hfetch; reflexivity.
Qed.

Lemma Fetch_accepts_by_date_window_witness :
  let pf := ParsedFeed.mk "T" "" None [mkentry "old" (Some 50); mkentry "edge" (Some 100);
                                         mkentry "new" (Some 900); mkentry "future" (Some 5000)] in
  let env := test_env (DoOk (mkResponse 200 "e2" "<rss/>")) (inl pf) in
  let feed := Feed.mk "id1" 1 1 100 1 "A" "http://a/feed.xml" "" (Some []) [] in
  let r := Fetch env feed st0 in
  fst (fst r) = FOk /\
  map FeedItem.Title (snd (fst r)).(Feed.Items) = ["new"; "edge"] /\
  (snd (fst r)).(Feed.Items) =
    sort_stable date_after
      (feed.(Feed.Items) ++
       map fst (filter (fun p => accept_rule_spec feed.(Feed.Refreshed) (clk env (snd p)) (fst p).(FeedItem.Date))
                       (fetch_trace env feed.(Feed.Refreshed) pf.(ParsedFeed.Items) st0)))%list.
Proof.
  intros pf env feed r.
  split; [reflexivity|]. split; [reflexivity|].
  apply (Fetch_accepts_by_date_window env feed st0
           (set_header "If-Modified-Since" "date" (set_header "User-Agent" "bookmarks" (mkRequest "GET" "http://a/feed.xml" [])))
           (mkResponse 200 "e2" "<rss/>") pf (snd (fst r)) (snd r));
    reflexivity || discriminate.
Defined.

(** *** The shadow full-text indexes *)

Lemma strings_eqb_spec (a b : list string) : FTS.strings_eqb a b = true <-> a = b.
Proof.
  revert b. induction a as [|x a IH]; intros [|y b]; simpl; split; intros H; try discriminate; auto.
  - apply andb_true_iff in H as [H1 H2]. apply String.eqb_eq in H1. apply IH in H2. congruence.
  - inversion H; subst. rewrite String.eqb_refl. simpl. now apply IH.
Qed.

Lemma entry_eqb_spec (a b : Z * list string) : FTS.entry_eqb a b = true <-> a = b.
Proof.
  destruct a as [za la], b as [zb lb]. unfold FTS.entry_eqb. simpl.
  rewrite andb_true_iff, Z.eqb_eq, strings_eqb_spec. split; [intros [-> ->]|intros H; inversion H]; auto.
Qed.

Lemma fts_delete_perm (e : Z * list string) (ix : FTS.Index) :
  In e ix -> Permutation ix (e :: FTS.fts_delete e ix).
Proof.
  induction ix as [|e' ix IH]; simpl; [tauto|]. intros Hin.
  destruct (FTS.entry_eqb e e') eqn:E.
  - apply entry_eqb_spec in E. subst. reflexivity.
  - destruct Hin as [Heq|Hin].
    + rewrite Heq in E. assert (FTS.entry_eqb e e = true) by (now apply entry_eqb_spec). congruence.
    + rewrite (IH Hin) at 1. apply perm_swap.
Qed.

Section IndexInvariant.
Context {Row : Type} (rowid : Row -> Z) (valid : list Row -> bool)
        (ai : Row -> FTS.Index -> FTS.Index) (ad : Row -> FTS.Index -> FTS.Index)
        (au : Row -> Row -> FTS.Index -> FTS.Index) (entry : Row -> Z * list string).
Hypothesis Hai : forall r ix, ai r ix = FTS.fts_insert (entry r) ix.
Hypothesis Had : forall r ix, ad r ix = FTS.fts_delete (entry r) ix.
Hypothesis Hau : forall o n ix, au o n ix = FTS.fts_insert (entry n) (FTS.fts_delete (entry o) ix).

Lemma trigger_delete_perm (r : Row) (rest : list (Z * list string)) (ix : FTS.Index) :
  Permutation ix (entry r :: rest) -> Permutation (FTS.fts_delete (entry r) ix) rest.
Proof.
  intros P. apply Permutation_cons_inv with (a := entry r).
  rewrite <- P. symmetry. apply fts_delete_perm. rewrite P. now left.
Qed.

Lemma delete_rows_mirror (p : Row -> bool) (rs : list Row) :
  forall ix extra, Permutation ix (map entry rs ++ extra)%list ->
  Permutation (snd (FTS.delete_rows ad p rs ix)) (map entry (fst (FTS.delete_rows ad p rs ix)) ++ extra)%list.
Proof.
  induction rs as [|r rs IH]; intros ix extra P; simpl in *; auto.
  destruct (p r).
  - apply IH. rewrite Had. now apply trigger_delete_perm.
  - specialize (IH ix (entry r :: extra)).
    destruct (FTS.delete_rows ad p rs ix) as [kept ix'] eqn:E. simpl in *.
    rewrite IH.
    + apply Permutation_sym, Permutation_middle.
    + rewrite P. apply Permutation_middle.
Qed.

Lemma update_rows_mirror (p : Row -> bool) (f : Row -> Row) (rs : list Row) :
  forall ix extra, Permutation ix (map entry rs ++ extra)%list ->
  Permutation (snd (FTS.update_rows au p f rs ix)) (map entry (fst (FTS.update_rows au p f rs ix)) ++ extra)%list.
Proof.
  induction rs as [|r rs IH]; intros ix extra P; simpl in *; auto.
  destruct (p r).
  - specialize (IH (au r (f r) ix) (entry (f r) :: extra)).
    destruct (FTS.update_rows au p f rs (au r (f r) ix)) as [rs'' ix'] eqn:E. simpl in *.
    rewrite IH.
    + apply Permutation_sym, Permutation_middle.
    + rewrite Hau. unfold FTS.fts_insert.
      rewrite (trigger_delete_perm r _ ix P).
      rewrite Permutation_app_comm. simpl. apply Permutation_middle.
  - specialize (IH ix (entry r :: extra)).
    destruct (FTS.update_rows au p f rs ix) as [rs'' ix'] eqn:E. simpl in *.
    rewrite IH.
    + apply Permutation_sym, Permutation_middle.
    + rewrite P. apply Permutation_middle.
Qed.

Lemma exec_stmt_mirror (s : FTS.State) (x : FTS.Stmt) :
  FTS.mirrors entry s -> FTS.mirrors entry (FTS.exec_stmt rowid valid ai ad au s x).
Proof.
  unfold FTS.mirrors. destruct s as [rs ix]. simpl. intros P.
  destruct x as [mk | p | p f]; simpl.
  - destruct (valid _); simpl; [|exact P].
    rewrite Hai. unfold FTS.fts_insert. rewrite map_app. now apply Permutation_app_tail.
  - pose proof (delete_rows_mirror p rs ix [] ltac:(now rewrite app_nil_r)) as D.
    destruct (FTS.delete_rows ad p rs ix) as [rs' ix']. simpl in *. now rewrite app_nil_r in D.
  - pose proof (update_rows_mirror p f rs ix [] ltac:(now rewrite app_nil_r)) as U.
    destruct (FTS.update_rows au p f rs ix) as [rs' ix']. simpl in *. rewrite app_nil_r in U.
    destruct (valid rs'); simpl; assumption.
Qed.

Lemma exec_mirror (xs : list FTS.Stmt) :
  forall s, FTS.mirrors entry s -> FTS.mirrors entry (FTS.exec rowid valid ai ad au s xs).
Proof.
  induction xs as [|x xs IH]; intros s H; simpl; auto.
  apply IH. now apply exec_stmt_mirror.
Qed.
End IndexInvariant.

(** C8: for the bookmarks and thoughts tables, starting from the freshly
    created (empty) table and index, after any sequence of INSERT, DELETE and
    UPDATE statements, each run together with its AFTER triggers, the index
    holds exactly one entry per base row: the row's rowid with its title,
    url (bookmarks only) and content. *)
Theorem fts_index_mirrors_base_table (bs : list (FTS.Stmt (Row := FTS.Bookmark)))
    (ts : list (FTS.Stmt (Row := FTS.Thought))) :
  FTS.mirrors FTS.bookmark_entry (FTS.exec_bookmarks FTS.empty_state bs) /\
  FTS.mirrors FTS.thought_entry (FTS.exec_thoughts FTS.empty_state ts).
Proof.
  split; apply exec_mirror; try reflexivity; apply Permutation_refl.
Qed.

(** ** Examples *)

Example FeedList_without_tags :
  let a := Feed.mk "id1" 1 1 1 5 "Tech news" "http://a/feed.xml" "" (Some ["tech"]) [] in
  let b := Feed.mk "id2" 1 1 1 9 "Cooking" "http://b/feed.xml" "" (Some []) [] in
  let '(feeds, totalCount, _) := FeedList (mkFeedListOptions "TECH" None 0 10 0) (mkWorld [a; b] [] st0) in
  feeds = [a] /\ totalCount = 1.
Proof. split; reflexivity. Qed.

Example FeedDelete_by_id_and_url :
  let w := mkWorld [mkfeed "id1" "http://a/feed.xml" "A"; mkfeed "id2" "http://b/feed.xml" "B"] [] st0 in
  db (snd (FeedDelete (mkfeed "id1" "http://a/feed.xml" "A") w)) = [mkfeed "id2" "http://b/feed.xml" "B"].
Proof. reflexivity. Qed.

Example Fetch_refreshed_cutoff_scenario :
  let pf := ParsedFeed.mk "T" "" None [mkentry "before" (Some (100 - 50)); mkentry "after" (Some (100 + 50))] in
  let env := test_env (DoOk (mkResponse 200 "" "<rss/>")) (inl pf) in
  let feed := Feed.mk "id1" 1 1 100 1 "A" "http://a/feed.xml" "" (Some []) [] in
  map FeedItem.Title (snd (fst (Fetch env feed st0))).(Feed.Items) = ["after"].
Proof. reflexivity. Qed.

Example bookmarks_index_example :
  let bm rid id url := FTS.mkBookmark rid id 0 0 "t" url "" "c" [] false in
  let s := FTS.exec_bookmarks FTS.empty_state
             [FTS.Insert (fun rid => bm rid "a" "u1"); FTS.Insert (fun rid => bm rid "b" "u2");
              FTS.Insert (fun rid => bm rid "c" "u1");  (* url taken: aborted *)
              FTS.Update (fun r => String.eqb r.(FTS.b_id) "a") (fun r => bm r.(FTS.b_rowid) "a" "u3");
              FTS.Delete (fun r => String.eqb r.(FTS.b_id) "b")] in
  FTS.index s = [(1, ["t"; "u3"; "c"])] /\ map FTS.b_url (FTS.rows s) = ["u3"].
Proof. split; reflexivity. Qed.

(** ** Further properties of feeds.go *)

(** *** Items of a feed *)

Lemma get_item_loop_found (ID : string) (pre post : list FeedItem.t) (x : FeedItem.t) :
  Forall (fun y => y.(FeedItem.ID) <> ID) pre -> x.(FeedItem.ID) = ID ->
  get_item_loop ID (pre ++ x :: post)%list = Some x.
Proof.
  intros Hpre Hx. induction Hpre as [|y pre Hy _ IH]; simpl.
  - now rewrite Hx, String.eqb_refl.
  - destruct (String.eqb_spec ID (FeedItem.ID y)); [congruence|exact IH].
Qed.

Lemma get_item_loop_none (ID : string) (items : list FeedItem.t) :
  Forall (fun y => y.(FeedItem.ID) <> ID) items -> get_item_loop ID items = None.
Proof.
  induction 1 as [|y items Hy _ IH]; simpl; auto.
  destruct (String.eqb_spec ID (FeedItem.ID y)); [congruence|exact IH].
Qed.

(** [GetItem] and [DeleteItem] agree: [DeleteItem] fails exactly when
    [GetItem] finds nothing (and then changes nothing); otherwise the item
    [GetItem] returns is the first one with that ID (none before it has the
    ID), [DeleteItem] removes it at that position, and the list is one item
    shorter. *)
Theorem GetItem_DeleteItem (feed : Feed.t) (ID : string) :
  match GetItem feed ID with
  | None => DeleteItem feed ID = (Some ErrNotExistingFeedItem, feed)
  | Some x =>
      exists pre post, feed.(Feed.Items) = (pre ++ x :: post)%list /\
        Forall (fun y => y.(FeedItem.ID) <> ID) pre /\ x.(FeedItem.ID) = ID /\
        DeleteItem feed ID = (None, Feed.set_Items feed (pre ++ post)%list) /\
        List.length (pre ++ post) = pred (List.length feed.(Feed.Items))
  end.
Proof.
  unfold GetItem, DeleteItem.
  destruct (delete_item_loop_spec ID feed.(Feed.Items) 0 feed.(Feed.Items) eq_refl (Forall_nil _))
    as [(pre & x & post & H1 & H2 & H3 & H4) | (H1 & H2)].
  - rewrite H4, H1, (get_item_loop_found ID pre post x H3 H2).
    exists pre, post. repeat split; auto.
    rewrite !length_app. simpl. lia.
  - rewrite (get_item_loop_none ID _ H1), H2, Feed_set_Items_same. reflexivity.
Qed.

(** *** Stable insertion sort *)

Section SortProps.
Context {A : Type} (before : A -> A -> bool) (R : A -> A -> Prop).
Hypothesis Hbefore : forall x y, before y x = true -> R y x.
Hypothesis Hnot : forall x y, before y x = false -> R x y.

Lemma insert_stable_perm (x : A) (l : list A) : Permutation (insert_stable before x l) (x :: l).
Proof.
  induction l as [|y l IH]; simpl; auto.
  destruct (before y x); auto.
  rewrite IH. apply perm_swap.
Qed.

Lemma sort_stable_perm (l : list A) : Permutation (sort_stable before l) l.
Proof.
  induction l as [|x l IH]; simpl; auto.
  rewrite insert_stable_perm. now apply perm_skip.
Qed.

Lemma insert_stable_sorted (x : A) (l : list A) : Sorted R l -> Sorted R (insert_stable before x l).
Proof.
  induction 1 as [|y l Hs IH Hd]; simpl; [repeat constructor|].
  destruct (before y x) eqn:E.
  - constructor; [exact IH|].
    destruct l as [|z l]; simpl; [constructor; now apply Hbefore|].
    destruct (before z x); constructor; [now inversion Hd | now apply Hbefore].
  - constructor; [now constructor | constructor; now apply Hnot].
Qed.

Lemma sort_stable_sorted (l : list A) : Sorted R (sort_stable before l).
Proof. induction l; simpl; [constructor | now apply insert_stable_sorted]. Qed.
End SortProps.

(** *** [Fetch] *)

Lemma build_feed_item_ticks (env : Env) (item : ParsedItem.t) (s : St) :
  (ticks s <= ticks (snd (build_feed_item env item s)))%nat.
Proof.
  unfold build_feed_item, generateUUID, now. simpl.
  destruct (ParsedItem.PublishedParsed item); [simpl; lia|].
  destruct (ParsedItem.UpdatedParsed item); simpl; lia.
Qed.

Lemma keep_item_ticks (env : Env) (refreshed : Z) (fi : FeedItem.t) (s : St) :
  (ticks s <= ticks (snd (keep_item env refreshed fi s)))%nat.
Proof.
  unfold keep_item, now.
  destruct (FeedItem.Date fi <? refreshed); simpl; [lia|].
  destruct (clk env (ticks s) <? FeedItem.Date fi); simpl; lia.
Qed.

Lemma fetch_loop_ticks (env : Env) (refreshed : Z) (entries : list ParsedItem.t) :
  forall items s, (ticks s <= ticks (snd (fetch_loop env refreshed entries items s)))%nat.
Proof.
  induction entries as [|item entries IH]; intros items s; simpl; [lia|].
  pose proof (build_feed_item_ticks env item s) as H1.
  destruct (build_feed_item env item s) as [fi s1]. simpl in H1.
  pose proof (keep_item_ticks env refreshed fi s1) as H2.
  destruct (keep_item env refreshed fi s1) as [keep s2]. simpl in H2.
  specialize (IH (if keep then (items ++ [fi])%list else items) s2). lia.
Qed.

(** The feed a successful, non-304 [Fetch] returns, field by field. *)
Lemma Fetch_ok_shape (env : Env) (feed : Feed.t) (s : St) (request : Request)
    (response : Response) (parsedFeed : ParsedFeed.t) (feed' : Feed.t) (s' : St) :
  feed.(Feed.URL) <> "" ->
  build_request env feed = inl request ->
  Do env request = DoOk response ->
  response.(StatusCode) <> 304 ->
  Parse env response.(Body) = inl parsedFeed ->
  Fetch env feed s = (FOk, feed', s') ->
  exists items s1 la,
    fetch_loop env feed.(Feed.Refreshed) parsedFeed.(ParsedFeed.Items) feed.(Feed.Items) s = (items, s1) /\
    s' = mkSt (S (ticks s1)) (uuids s1) /\
    (String.eqb parsedFeed.(ParsedFeed.Updated) "" = false ->
       parsedFeed.(ParsedFeed.UpdatedParsed) = Some la) /\
    (String.eqb parsedFeed.(ParsedFeed.Updated) "" = true -> la = feed.(Feed.LastAuthored)) /\
    feed' = Feed.mk feed.(Feed.ID) feed.(Feed.Created) feed.(Feed.Updated) (clk env (ticks s1)) la
              (if String.eqb feed.(Feed.Title) "" then parsedFeed.(ParsedFeed.Title) else feed.(Feed.Title))
              feed.(Feed.URL) response.(EtagHeader) feed.(Feed.Tags) (sort_stable date_after items).
Proof.
  intros Hu Hreq Hdo H304 Hparse Hfetch. unfold Fetch in Hfetch.
  apply String.eqb_neq in Hu. apply Z.eqb_neq in H304.
  rewrite Hu, Hreq, Hdo, H304, Hparse in Hfetch.
  destruct (fetch_loop env (Feed.Refreshed feed) (ParsedFeed.Items parsedFeed) (Feed.Items feed) s)
    as [items s1] eqn:L.
  destruct (String.eqb (ParsedFeed.Updated parsedFeed) "") eqn:Hup; simpl in Hfetch.
  - exists items, s1, feed.(Feed.LastAuthored). repeat split; try discriminate; auto;
      unfold fetch_finish in Hfetch; simpl in Hfetch;
      destruct (String.eqb (Feed.Title feed) ""); inversion Hfetch; reflexivity.
  - destruct (ParsedFeed.UpdatedParsed parsedFeed) as [t|]; [|discriminate].
    exists items, s1, t. repeat split; try discriminate; auto;
      unfold fetch_finish in Hfetch; simpl in Hfetch;
      destruct (String.eqb (Feed.Title feed) ""); inversion Hfetch; reflexivity.
Qed.

(** Lines 125-134: a successful, non-304 [Fetch] keeps the feed's ID, URL,
    Created, Updated and Tags; takes the response's ETag; sets Refreshed to a
    reading of the clock taken after the loop (its tick is the last one the
    call consumes); keeps a non-empty Title and otherwise takes the parsed
    one; takes the parsed update time as LastAuthored exactly when the
    parsed [Updated] text is non-empty. *)
Theorem Fetch_ok_fields (env : Env) (feed : Feed.t) (s : St) (request : Request)
    (response : Response) (parsedFeed : ParsedFeed.t) (feed' : Feed.t) (s' : St) :
  feed.(Feed.URL) <> "" ->
  build_request env feed = inl request ->
  Do env request = DoOk response ->
  response.(StatusCode) <> 304 ->
  Parse env response.(Body) = inl parsedFeed ->
  Fetch env feed s = (FOk, feed', s') ->
  feed'.(Feed.ID) = feed.(Feed.ID) /\ feed'.(Feed.URL) = feed.(Feed.URL) /\
  feed'.(Feed.Created) = feed.(Feed.Created) /\ feed'.(Feed.Updated) = feed.(Feed.Updated) /\
  feed'.(Feed.Tags) = feed.(Feed.Tags) /\
  feed'.(Feed.Etag) = response.(EtagHeader) /\
  feed'.(Feed.Title) = (if String.eqb feed.(Feed.Title) "" then parsedFeed.(ParsedFeed.Title) else feed.(Feed.Title)) /\
  (parsedFeed.(ParsedFeed.Updated) <> "" -> parsedFeed.(ParsedFeed.UpdatedParsed) = Some feed'.(Feed.LastAuthored)) /\
  (parsedFeed.(ParsedFeed.Updated) = "" -> feed'.(Feed.LastAuthored) = feed.(Feed.LastAuthored)) /\
  exists k, feed'.(Feed.Refreshed) = clk env k /\ (ticks s <= k)%nat /\ ticks s' = S k.
Proof.
  intros Hu Hreq Hdo H304 Hparse Hfetch.
  destruct (Fetch_ok_shape env feed s request response parsedFeed feed' s' Hu Hreq Hdo H304 Hparse Hfetch)
    as (items & s1 & la & L & Hs' & Hla1 & Hla2 & ->).
  pose proof (fetch_loop_ticks env feed.(Feed.Refreshed) parsedFeed.(ParsedFeed.Items) feed.(Feed.Items) s) as T.
  rewrite L in T. simpl in T. simpl.
  repeat split; auto.
  - intros H. apply Hla1. now apply String.eqb_neq.
  - intros H. apply Hla2. now apply String.eqb_eq.
  - exists (ticks s1). subst s'. simpl. auto.
Qed.

Lemma Fetch_ok_fields_witness :
  let pf := ParsedFeed.mk "T" "Mon" (Some 777) [mkentry "new" (Some 900)] in
  let env := test_env (DoOk (mkResponse 200 "e2" "<rss/>")) (inl pf) in
  let feed := Feed.mk "id1" 1 1 100 1 "" "http://a/feed.xml" "" (Some []) [] in
  let r := Fetch env feed st0 in
  fst (fst r) = FOk /\ (snd (fst r)).(Feed.Title) = "T" /\ (snd (fst r)).(Feed.LastAuthored) = 777 /\
  ((snd (fst r)).(Feed.ID) = feed.(Feed.ID) /\ (snd (fst r)).(Feed.URL) = feed.(Feed.URL) /\
  (snd (fst r)).(Feed.Created) = feed.(Feed.Created) /\ (snd (fst r)).(Feed.Updated) = feed.(Feed.Updated) /\
  (snd (fst r)).(Feed.Tags) = feed.(Feed.Tags) /\
  (snd (fst r)).(Feed.Etag) = "e2" /\
  (snd (fst r)).(Feed.Title) = (if String.eqb feed.(Feed.Title) "" then pf.(ParsedFeed.Title) else feed.(Feed.Title)) /\
  (pf.(ParsedFeed.Updated) <> "" -> pf.(ParsedFeed.UpdatedParsed) = Some (snd (fst r)).(Feed.LastAuthored)) /\
  (pf.(ParsedFeed.Updated) = "" -> (snd (fst r)).(Feed.LastAuthored) = feed.(Feed.LastAuthored)) /\
  exists k, (snd (fst r)).(Feed.Refreshed) = clk env k /\ (ticks st0 <= k)%nat /\ ticks (snd r) = S k).
Proof.
  intros pf env feed r.
  split; [reflexivity|]. split; [reflexivity|]. split; [reflexivity|].
  apply (Fetch_ok_fields env feed st0
           (set_header "If-Modified-Since" "date" (set_header "User-Agent" "bookmarks" (mkRequest "GET" "http://a/feed.xml" [])))
           (mkResponse 200 "e2" "<rss/>") pf (snd (fst r)) (snd r));
    reflexivity || discriminate.
Defined.

(** Lines 93-123 and 136-138: after a successful, non-304 [Fetch] the items
    are sorted by Date, newest first, and are a rearrangement of the previous
    items together with new items none of which is dated before the feed's
    previous Refreshed. *)
Theorem Fetch_ok_items_sorted (env : Env) (feed : Feed.t) (s : St) (request : Request)
    (response : Response) (parsedFeed : ParsedFeed.t) (feed' : Feed.t) (s' : St) :
  feed.(Feed.URL) <> "" ->
  build_request env feed = inl request ->
  Do env request = DoOk response ->
  response.(StatusCode) <> 304 ->
  Parse env response.(Body) = inl parsedFeed ->
  Fetch env feed s = (FOk, feed', s') ->
  Sorted (fun a b => b.(FeedItem.Date) <= a.(FeedItem.Date)) feed'.(Feed.Items) /\
  exists fresh, Permutation feed'.(Feed.Items) (feed.(Feed.Items) ++ fresh)%list /\
    Forall (fun i => feed.(Feed.Refreshed) <= i.(FeedItem.Date)) fresh.
Proof.
  intros Hu Hreq Hdo H304 Hparse Hfetch.
  destruct (Fetch_ok_shape env feed s request response parsedFeed feed' s' Hu Hreq Hdo H304 Hparse Hfetch)
    as (items & s1 & la & L & _ & _ & _ & ->).
  simpl. split.
  - apply sort_stable_sorted; unfold date_after; intros x y H.
    + apply Z.ltb_lt in H. lia.
    + apply Z.ltb_ge in H. lia.
  - pose proof (fetch_loop_trace env feed.(Feed.Refreshed) parsedFeed.(ParsedFeed.Items) feed.(Feed.Items) s) as T.
    rewrite L in T. simpl in T. subst items.
    eexists. split; [apply sort_stable_perm|].
    apply Forall_forall. intros i Hi. apply in_map_iff in Hi as (p & <- & Hp).
    apply filter_In in Hp as [_ Hp]. unfold accept_rule_spec in Hp.
    apply andb_true_iff in Hp as [Hp _]. apply negb_true_iff, Z.ltb_ge in Hp. exact Hp.
Qed.

Lemma Fetch_ok_items_sorted_witness :
  let pf := ParsedFeed.mk "T" "" None [mkentry "a" (Some 300); mkentry "b" (Some 900); mkentry "c" (Some 20)] in
  let env := test_env (DoOk (mkResponse 200 "e2" "<rss/>")) (inl pf) in
  let feed := Feed.mk "id1" 1 1 100 1 "A" "http://a/feed.xml" "" (Some []) [mkitem "old" 500] in
  let r := Fetch env feed st0 in
  map FeedItem.Date (snd (fst r)).(Feed.Items) = [900; 500; 300] /\
  (Sorted (fun a b => b.(FeedItem.Date) <= a.(FeedItem.Date)) (snd (fst r)).(Feed.Items) /\
   exists fresh, Permutation (snd (fst r)).(Feed.Items) (feed.(Feed.Items) ++ fresh)%list /\
     Forall (fun i => feed.(Feed.Refreshed) <= i.(FeedItem.Date)) fresh).
Proof.
  intros pf env feed r.
  split; [reflexivity|].
  apply (Fetch_ok_items_sorted env feed st0
           (set_header "If-Modified-Since" "date" (set_header "User-Agent" "bookmarks" (mkRequest "GET" "http://a/feed.xml" [])))
           (mkResponse 200 "e2" "<rss/>") pf (snd (fst r)) (snd r));
    reflexivity || discriminate.
Defined.

Lemma Fetch_err_frame (env : Env) (feed : Feed.t) (s : St) (e : Error) (feed' : Feed.t) (s' : St) :
  Fetch env feed s = (FErr e, feed', s') -> feed' = feed /\ s' = s.
Proof.
  intros H. unfold Fetch in H.
  destruct (String.eqb (Feed.URL feed) ""); [now inversion H|].
  destruct (build_request env feed) as [request|err]; [|now inversion H].
  destruct (Do env request) as [response|err [r|]]; [|now inversion H|discriminate].
  destruct (StatusCode response =? 304); [discriminate|].
  destruct (Parse env (Body response)) as [pf|err]; [|now inversion H].
  destruct (fetch_loop env _ _ _ s) as [items s1].
  unfold fetch_finish in H.
  destruct (negb (String.eqb (ParsedFeed.Updated pf) "")); [destruct (ParsedFeed.UpdatedParsed pf)|];
    simpl in H; try destruct (String.eqb _ ""); discriminate.
Qed.

(** Every error [Fetch] returns (no URL, a request that cannot be built, a
    transport error with a response, a parse error) leaves the feed and the
    clock and UUID state as they were: errors are only raised before the
    loop. *)
Theorem Fetch_error_untouched (env : Env) (feed : Feed.t) (s : St) (e : Error) (feed' : Feed.t) (s' : St) :
  Fetch env feed s = (FErr e, feed', s') -> feed' = feed /\ s' = s.
Proof. apply Fetch_err_frame. Qed.

Lemma Fetch_error_untouched_witness :
  let env := test_env (DoOk (mkResponse 200 "e2" "garbage")) (inr "Failed to detect feed type") in
  let feed := mkfeed "id1" "http://a/feed.xml" "A" in
  Fetch env feed st0 = (FErr (ErrLib "Failed to detect feed type"), feed, st0) /\
  (feed = feed /\ st0 = st0).
Proof.
  intros env feed. split; [reflexivity|].
  apply (Fetch_error_untouched env feed st0 (ErrLib "Failed to detect feed type")). reflexivity.
Defined.

Lemma find_filter_weaken {A : Type} (p q : A -> bool) (l : list A) :
  (forall x, p x = true -> q x = true) -> find p (filter q l) = find p l.
Proof.
  intros H. induction l as [|x l IH]; simpl; auto.
  destruct (p x) eqn:Ep.
  - rewrite (H x Ep). simpl. now rewrite Ep.
  - destruct (q x); simpl; [rewrite Ep|]; exact IH.
Qed.

Lemma header_get_set_same (k v : string) (r : Request) :
  header_get k (set_header k v r).(Header) = Some v.
Proof. unfold header_get, set_header. simpl. now rewrite String.eqb_refl. Qed.

Lemma header_get_set_other (k k' v : string) (r : Request) :
  k' <> k -> header_get k' (set_header k v r).(Header) = header_get k' r.(Header).
Proof.
  intros Hne. unfold header_get, set_header. simpl.
  assert (E1 : String.eqb k k' = false) by (apply String.eqb_neq; congruence).
  rewrite E1.
  f_equal. apply find_filter_weaken. intros [a b] E. simpl in *.
  apply String.eqb_eq in E. subst a. apply String.eqb_neq in Hne. now rewrite Hne.
Qed.

(** Lines 58-67: the request always carries the [User-Agent]; it carries
    [If-None-Match] with the ETag when the feed has one, and then no
    [If-Modified-Since]; otherwise it carries [If-Modified-Since] with the
    formatted Refreshed time when that is not the zero time; with neither an
    ETag nor a Refreshed time it carries no conditional header (given that
    [http.NewRequest] starts with no such headers). *)
Theorem build_request_conditional_headers (env : Env) (feed : Feed.t) (req0 request : Request) :
  NewRequest env "GET" feed.(Feed.URL) = inl req0 ->
  header_get "If-None-Match" req0.(Header) = None ->
  header_get "If-Modified-Since" req0.(Header) = None ->
  build_request env feed = inl request ->
  header_get "User-Agent" request.(Header) = Some (defaultUserAgent env) /\
  (feed.(Feed.Etag) <> "" ->
     header_get "If-None-Match" request.(Header) = Some feed.(Feed.Etag) /\
     header_get "If-Modified-Since" request.(Header) = None) /\
  (feed.(Feed.Etag) = "" -> feed.(Feed.Refreshed) <> 0 ->
     header_get "If-Modified-Since" request.(Header) = Some (FormatRFC1123 env feed.(Feed.Refreshed)) /\
     header_get "If-None-Match" request.(Header) = None) /\
  (feed.(Feed.Etag) = "" -> feed.(Feed.Refreshed) = 0 ->
     header_get "If-None-Match" request.(Header) = None /\
     header_get "If-Modified-Since" request.(Header) = None).
Proof.
  intros Hnew Hinm Hims Hreq. unfold build_request in Hreq. rewrite Hnew in Hreq.
  injection Hreq as <-.
  destruct (String.eqb_spec (Feed.Etag feed) "") as [He|He]; cbn [negb];
    [destruct (Z.eqb_spec (Feed.Refreshed feed) 0) as [Hr|Hr]; cbn [negb]|];
    repeat first [rewrite header_get_set_same | rewrite header_get_set_other by discriminate];
    rewrite ?Hinm, ?Hims; repeat split; intros; try split; auto; try contradiction; try lia.
Qed.

Lemma build_request_conditional_headers_witness :
  let env := test_env (DoOk (mkResponse 304 "e" "b")) (inr "x") in
  let feed := Feed.set_Etag (mkfeed "id1" "http://a/feed.xml" "A") "W/1" in
  exists request, build_request env feed = inl request /\
  (header_get "User-Agent" request.(Header) = Some (defaultUserAgent env) /\
  (feed.(Feed.Etag) <> "" ->
     header_get "If-None-Match" request.(Header) = Some feed.(Feed.Etag) /\
     header_get "If-Modified-Since" request.(Header) = None) /\
  (feed.(Feed.Etag) = "" -> feed.(Feed.Refreshed) <> 0 ->
     header_get "If-Modified-Since" request.(Header) = Some (FormatRFC1123 env feed.(Feed.Refreshed)) /\
     header_get "If-None-Match" request.(Header) = None) /\
  (feed.(Feed.Etag) = "" -> feed.(Feed.Refreshed) = 0 ->
     header_get "If-None-Match" request.(Header) = None /\
     header_get "If-Modified-Since" request.(Header) = None)).
Proof.
  intros env feed. eexists. split; [reflexivity|].
  apply (build_request_conditional_headers env feed (mkRequest "GET" "http://a/feed.xml" [])); reflexivity.
Defined.

(** *** [FeedRefresh] *)

Lemma with_st_same (w : World) : with_st w w.(st) = w.
Proof. now destruct w. Qed.

(** Lines 330-333: when [Fetch] returns an error, [FeedRefresh] returns that
    error with the feed as it was and issues no statement: the table, the
    statement log and the clock and UUID state are unchanged. *)
Theorem FeedRefresh_fetch_error (env : Env) (feed : Feed.t) (w : World) (e : Error) (feed' : Feed.t) (s' : St) :
  Fetch env feed w.(st) = (FErr e, feed', s') ->
  FeedRefresh env feed w = (FErr e, feed, w).
Proof.
  intros H. unfold FeedRefresh.
  destruct (Fetch_err_frame env feed w.(st) e feed' s' H) as [-> ->].
  rewrite H. now rewrite with_st_same.
Qed.

Lemma FeedRefresh_fetch_error_witness :
  let env := test_env (DoOk (mkResponse 200 "e2" "garbage")) (inr "Failed to detect feed type") in
  let feed := mkfeed "id1" "http://a/feed.xml" "A" in
  let w := mkWorld [feed] [] st0 in
  FeedRefresh env feed w = (FErr (ErrLib "Failed to detect feed type"), feed, w).
Proof.
  intros env feed w.
  apply (FeedRefresh_fetch_error env feed w (ErrLib "Failed to detect feed type") feed st0). reflexivity.
Defined.

(** Lines 330-340: on a 304 answer [Fetch] changes nothing, and [FeedRefresh]
    is exactly [FeedPersist] of the unchanged feed: the row is still written
    (with a new Updated time) and a persistence error is passed on. *)
Theorem FeedRefresh_not_modified_persists (env : Env) (feed : Feed.t) (w : World)
    (request : Request) (response : Response) :
  feed.(Feed.URL) <> "" ->
  build_request env feed = inl request ->
  Do env request = DoOk response ->
  response.(StatusCode) = 304 ->
  FeedRefresh env feed w =
    let '(e, f, w') := FeedPersist env feed w in
    (match e with None => FOk | Some e => FErr e end, f, w').
Proof.
  intros Hu Hreq Hdo H304. unfold FeedRefresh, Fetch.
  apply String.eqb_neq in Hu. rewrite Hu, Hreq, Hdo. apply Z.eqb_eq in H304. rewrite H304.
  rewrite with_st_same.
  destruct (FeedPersist env feed w) as [[[e|] f] w']; reflexivity.
Qed.

Lemma FeedRefresh_not_modified_persists_witness :
  let env := test_env (DoOk (mkResponse 304 "e1" "x")) (inr "x") in
  let feed := Feed.mk "id1" 1 1 100 1 "A" "http://a/feed.xml" "e1" (Some []) [] in
  let w := mkWorld [feed] [] st0 in
  FeedRefresh env feed w =
    let '(e, f, w') := FeedPersist env feed w in
    (match e with None => FOk | Some e => FErr e end, f, w').
Proof.
  intros env feed w.
  apply (FeedRefresh_not_modified_persists env feed w
           (set_header "If-None-Match" "e1" (set_header "User-Agent" "bookmarks" (mkRequest "GET" "http://a/feed.xml" [])))
           (mkResponse 304 "e1" "x")); reflexivity || discriminate.
Defined.

(** *** [FeedPersist], [FeedGet] and [FeedDelete] together *)

Lemma persist_defaults_fields (env : Env) (feed : Feed.t) (s : St) :
  let fd := fst (persist_defaults env feed s) in
  let s' := snd (persist_defaults env feed s) in
  fd.(Feed.Title) = (if String.eqb feed.(Feed.Title) "" then feed.(Feed.URL) else feed.(Feed.Title)) /\
  fd.(Feed.URL) = feed.(Feed.URL) /\ fd.(Feed.Etag) = feed.(Feed.Etag) /\
  fd.(Feed.Items) = feed.(Feed.Items) /\ fd.(Feed.LastAuthored) = feed.(Feed.LastAuthored) /\
  fd.(Feed.Tags) = match feed.(Feed.Tags) with None => Some [] | Some t => Some t end /\
  (feed.(Feed.Refreshed) <> 0 -> fd.(Feed.Refreshed) = feed.(Feed.Refreshed)) /\
  (feed.(Feed.Refreshed) = 0 -> exists k, fd.(Feed.Refreshed) = clk env k - 604800 /\ fd.(Feed.Updated) = clk env (S k)) /\
  exists k, fd.(Feed.Updated) = clk env k /\ (ticks s <= k)%nat /\ ticks s' = S k.
Proof.
  unfold persist_defaults, now.
  destruct feed as [id cr up rf la ti u et tg its]; simpl.
  destruct (String.eqb ti "") eqn:ET; simpl;
    destruct (cr =? 0) eqn:EC; simpl;
    destruct (rf =? 0) eqn:ER; simpl;
    destruct tg as [t|]; simpl;
    repeat split; auto;
    try (intros H; apply Z.eqb_neq in H; congruence);
    try (intros H; apply Z.eqb_eq in H; congruence);
    try (intros _; eexists; split; reflexivity);
    eexists; repeat split; simpl; lia.
Qed.

(** The feed [FeedPersist] hands back is the defaulted feed, with only its ID
    and Created possibly taken from elsewhere. *)
Lemma FeedPersist_feed_shape (env : Env) (feed : Feed.t) (w : World) :
  feed.(Feed.URL) <> "" ->
  exists id c, snd (fst (FeedPersist env feed w)) =
    Feed.set_Created (Feed.set_ID (fst (persist_defaults env feed w.(st))) id) c.
Proof.
  intros Hu. rewrite (FeedPersist_unfold env feed w Hu).
  destruct (persist_defaults env feed (st w)) as [fd s]. simpl.
  unfold lookup_by_url. simpl.
  destruct (find (fun r => String.eqb (Feed.URL r) (Feed.URL fd)) (db w)) as [r0|]; simpl.
  - destruct (String.eqb (Feed.ID r0) "").
    + destruct (insert_feed _ _); simpl; eexists; exists (Feed.Created r0); reflexivity.
    + destruct (update_feed _ _); simpl; do 2 eexists; reflexivity.
  - destruct (String.eqb (Feed.ID fd) "").
    + destruct (insert_feed _ _); simpl; exists (uuid env (uuids s)), (Feed.Created fd); now destruct fd.
    + destruct (update_feed _ _); simpl; exists (Feed.ID fd), (Feed.Created fd); now destruct fd.
Qed.

(** Lines 247-263: whatever the outcome of the statements, the feed
    [FeedPersist] leaves behind has an empty Title replaced by the URL, no
    Tags replaced by the empty list, a zero Refreshed replaced by the clock
    minus seven days (read one tick before Updated), Updated set to a clock
    reading of this call, and URL, ETag, Items and LastAuthored as given. *)
Theorem FeedPersist_defaults (env : Env) (feed : Feed.t) (w : World) :
  feed.(Feed.URL) <> "" ->
  let f := snd (fst (FeedPersist env feed w)) in
  f.(Feed.Title) = (if String.eqb feed.(Feed.Title) "" then feed.(Feed.URL) else feed.(Feed.Title)) /\
  f.(Feed.URL) = feed.(Feed.URL) /\ f.(Feed.Etag) = feed.(Feed.Etag) /\
  f.(Feed.Items) = feed.(Feed.Items) /\ f.(Feed.LastAuthored) = feed.(Feed.LastAuthored) /\
  f.(Feed.Tags) = match feed.(Feed.Tags) with None => Some [] | Some t => Some t end /\
  (feed.(Feed.Refreshed) <> 0 -> f.(Feed.Refreshed) = feed.(Feed.Refreshed)) /\
  (feed.(Feed.Refreshed) = 0 -> exists k, f.(Feed.Refreshed) = clk env k - 604800 /\ f.(Feed.Updated) = clk env (S k)) /\
  exists k, f.(Feed.Updated) = clk env k /\ (ticks w.(st) <= k)%nat.
Proof.
  intros Hu f. destruct (FeedPersist_feed_shape env feed w Hu) as (id & c & Hf).
  fold f in Hf. rewrite Hf. simpl.
  destruct (persist_defaults_fields env feed w.(st)) as (H1 & H2 & H3 & H4 & H5 & H6 & H7 & H8 & k & H9 & H10 & _).
  repeat split; auto. exists k. auto.
Qed.

Lemma FeedPersist_defaults_witness :
  let env := test_env (DoErr "x" None) (inr "x") in
  let feed := mkfeed "" "http://a/feed.xml" "" in
  let w := mkWorld [] [] st0 in
  let f := snd (fst (FeedPersist env feed w)) in
  f.(Feed.Title) = "http://a/feed.xml" /\ f.(Feed.Refreshed) = 1001 - 604800 /\ f.(Feed.Updated) = 1002 /\
  (f.(Feed.Title) = (if String.eqb feed.(Feed.Title) "" then feed.(Feed.URL) else feed.(Feed.Title)) /\
  f.(Feed.URL) = feed.(Feed.URL) /\ f.(Feed.Etag) = feed.(Feed.Etag) /\
  f.(Feed.Items) = feed.(Feed.Items) /\ f.(Feed.LastAuthored) = feed.(Feed.LastAuthored) /\
  f.(Feed.Tags) = match feed.(Feed.Tags) with None => Some [] | Some t => Some t end /\
  (feed.(Feed.Refreshed) <> 0 -> f.(Feed.Refreshed) = feed.(Feed.Refreshed)) /\
  (feed.(Feed.Refreshed) = 0 -> exists k, f.(Feed.Refreshed) = clk env k - 604800 /\ f.(Feed.Updated) = clk env (S k)) /\
  exists k, f.(Feed.Updated) = clk env k /\ (ticks w.(st) <= k)%nat).
Proof.
  intros env feed w f.
  split; [reflexivity|]. split; [reflexivity|]. split; [reflexivity|].
  apply (FeedPersist_defaults env feed w). discriminate.
Defined.

(** Where one [FeedPersist] without an ID puts the feed it returns. *)
Lemma FeedPersist_no_id_db (env : Env) (feed : Feed.t) (w : World) :
  feed.(Feed.URL) <> "" -> feed.(Feed.ID) = "" -> feeds_ok w.(db) ->
  (Forall (fun r => r.(Feed.URL) <> feed.(Feed.URL)) w.(db) ->
     ~ In (uuid env (uuids w.(st))) (map Feed.ID w.(db)) /\ uuid env (uuids w.(st)) <> "") ->
  let '(e, f, w') := FeedPersist env feed w in
  f.(Feed.URL) = feed.(Feed.URL) /\ f.(Feed.ID) <> "" /\
  ((Forall (fun r => r.(Feed.URL) <> feed.(Feed.URL)) w.(db) /\ w'.(db) = (w.(db) ++ [f])%list) \/
   (exists r0, In r0 w.(db) /\ r0.(Feed.URL) = feed.(Feed.URL) /\ f.(Feed.ID) = r0.(Feed.ID) /\
      w'.(db) = update_rows_by_id f w.(db) /\ update_row f r0 = f)).
Proof.
  intros Hu Hid (Hids & Hurls & Hne) Hfresh.
  destruct (persist_defaults_keys env feed w.(st)) as (HU & HI & HS).
  rewrite (FeedPersist_unfold env feed w Hu).
  destruct (persist_defaults env feed (st w)) as [fd s]. simpl in HU, HI, HS |- *.
  unfold lookup_by_url. simpl. rewrite HU.
  destruct (find (fun r => String.eqb (Feed.URL r) (Feed.URL feed)) (db w)) as [r0|] eqn:Hfind.
  - apply find_some in Hfind as [Hr0 Hu0]. apply String.eqb_eq in Hu0.
    assert (Huniq : forall r, In r (db w) -> Feed.URL r = Feed.URL feed -> r = r0)
      by (intros r Hr Hur; apply (nodup_map_eq Feed.URL (db w)); congruence).
    assert (Hne0 : Feed.ID r0 <> "") by (intros E; apply Hne; rewrite <- E; now apply in_map).
    pose proof Hne0 as Hne0'. apply String.eqb_neq in Hne0'.
    simpl. rewrite Hne0'.
    set (f := Feed.set_Created (Feed.set_ID fd (Feed.ID r0)) (Feed.Created r0)).
    assert (HfU : Feed.URL f = Feed.URL feed) by exact HU.
    assert (Hown : url_owned_by (Feed.URL f) (Feed.ID f) (db w)).
    { intros r Hr Hur. rewrite HfU in Hur. now rewrite (Huniq r Hr Hur). }
    rewrite (update_feed_ok f (db w) Hown). simpl.
    split; [exact HfU|]. split; [exact Hne0|]. right. exists r0. repeat split; auto.
  - assert (Hnone : Forall (fun r => Feed.URL r <> Feed.URL feed) (db w)).
    { apply Forall_forall. intros r Hr E. pose proof (find_none _ _ Hfind r Hr) as H. simpl in H.
      rewrite E, String.eqb_refl in H. discriminate. }
    destruct (Hfresh Hnone) as [Hnew Hnonempty].
    rewrite HI, Hid. simpl. rewrite HS.
    set (f := Feed.set_ID fd (uuid env (uuids (st w)))).
    assert (HfU : Feed.URL f = Feed.URL feed) by exact HU.
    rewrite (insert_feed_ok f (db w)); [simpl | exact Hnew | now rewrite HfU].
    split; [exact HfU|]. split; [exact Hnonempty|]. left. auto.
Qed.

Lemma filter_unique_key (k : Feed.t -> string) (rows : list Feed.t) (f : Feed.t) :
  NoDup (map k rows) -> In f rows -> filter (fun r => String.eqb (k r) (k f)) rows = [f].
Proof.
  induction rows as [|r rs IH]; simpl; [tauto|]. intros Hnd Hin.
  inversion Hnd as [|? ? Hr Hnd']; subst.
  assert (Hnone : forall rs', ~ In (k r) (map k rs') -> filter (fun x => String.eqb (k x) (k r)) rs' = []).
  { induction rs' as [|x rs' IH']; simpl; auto. intros H.
    destruct (String.eqb_spec (k x) (k r)); [exfalso; apply H; now left|]. apply IH'. tauto. }
  destruct Hin as [<-|Hin].
  - rewrite String.eqb_refl. f_equal. now apply Hnone.
  - destruct (String.eqb_spec (k r) (k f)) as [E|E].
    + exfalso. apply Hr. rewrite E. now apply in_map.
    + now apply IH.
Qed.

(** Lines 222-239 with 242-300: after [FeedPersist] of a feed without an ID
    succeeds on a well-formed table, [FeedGet] finds exactly the feed it
    returned, both by its ID and, with the ID cleared, by its URL. *)
Theorem FeedPersist_then_FeedGet (env : Env) (feed : Feed.t) (w : World) :
  feed.(Feed.URL) <> "" -> feed.(Feed.ID) = "" -> feeds_ok w.(db) ->
  (Forall (fun r => r.(Feed.URL) <> feed.(Feed.URL)) w.(db) ->
     ~ In (uuid env (uuids w.(st))) (map Feed.ID w.(db)) /\ uuid env (uuids w.(st)) <> "") ->
  let '(e, f, w') := FeedPersist env feed w in
  FeedGet f w' = (None, f, log_query w' (QSelect ["*"] [CondID f.(Feed.ID)])) /\
  FeedGet (Feed.set_ID f "") w' = (None, f, log_query w' (QSelect ["*"] [CondURL f.(Feed.URL)])).
Proof.
  intros Hu Hid Hok Hfresh.
  pose proof (FeedPersist_no_id env feed w Hu Hid Hok Hfresh) as A.
  pose proof (FeedPersist_no_id_db env feed w Hu Hid Hok Hfresh) as B.
  destruct (FeedPersist env feed w) as [[e f] w'].
  destruct A as (_ & _ & (Hids' & Hurls' & _) & _ & _).
  destruct B as (HfU & Hfid & Hcase).
  assert (Hin : In f w'.(db)).
  { destruct Hcase as [(_ & ->) | (r0 & Hr0 & _ & Hi & -> & Hup)].
    - apply in_or_app. right. now left.
    - assert (H : In (update_row f r0) (update_rows_by_id f w.(db))).
      { apply in_map_iff. exists r0. rewrite <- Hi, String.eqb_refl. auto. }
      now rewrite Hup in H. }
  assert (Hu' : Feed.URL f <> "") by congruence.
  unfold FeedGet, feed_get_load, select_feeds. simpl.
  apply String.eqb_neq in Hfid. apply String.eqb_neq in Hu'. rewrite Hfid, Hu'. simpl.
  unfold matches. simpl.
  rewrite (filter_ext _ (fun r => String.eqb (Feed.ID r) (Feed.ID f))) by (intros r; apply andb_true_r).
  rewrite (filter_unique_key Feed.ID _ f Hids' Hin).
  split; [reflexivity|].
  rewrite (filter_ext _ (fun r => String.eqb (Feed.URL r) (Feed.URL f))) by (intros r; apply andb_true_r).
  rewrite (filter_unique_key Feed.URL _ f Hurls' Hin). reflexivity.
Qed.

Lemma FeedPersist_then_FeedGet_witness :
  let env := test_env (DoErr "x" None) (inr "x") in
  let feed := mkfeed "" "http://a/feed.xml" "" in
  let w := mkWorld [mkfeed "id0" "http://b/feed.xml" "B"] [] st0 in
  (snd (fst (FeedPersist env feed w))).(Feed.ID) = "uuid0" /\
  let '(e, f, w') := FeedPersist env feed w in
  FeedGet f w' = (None, f, log_query w' (QSelect ["*"] [CondID f.(Feed.ID)])) /\
  FeedGet (Feed.set_ID f "") w' = (None, f, log_query w' (QSelect ["*"] [CondURL f.(Feed.URL)])).
Proof.
  intros env feed w. split; [reflexivity|].
  apply (FeedPersist_then_FeedGet env feed w).
  - discriminate.
  - reflexivity.
  - unfold feeds_ok. simpl. split; [|split].
    + repeat constructor. intros [].
    + repeat constructor. intros [].
    + intros [H|[]]. discriminate.
  - intros _. simpl. split; [intros [H|[]]|]; discriminate.
Defined.

Lemma filter_delete_key (x u : string) (rows : list Feed.t) :
  (forall r, In r rows -> (r.(Feed.ID) = x <-> r.(Feed.URL) = u)) ->
  filter (fun r => negb (matches [CondID x; CondURL u] r)) rows =
  filter (fun r => negb (String.eqb r.(Feed.URL) u)) rows.
Proof.
  intros H. apply filter_ext_in. intros r Hr. unfold matches. simpl.
  specialize (H r Hr).
  destruct (String.eqb_spec (Feed.ID r) x), (String.eqb_spec (Feed.URL r) u); simpl; tauto.
Qed.

Lemma filter_url_update (f : Feed.t) (u : string) (rows : list Feed.t) :
  (forall r, In r rows -> r.(Feed.ID) = f.(Feed.ID) -> r.(Feed.URL) = u) -> f.(Feed.URL) = u ->
  filter (fun r => negb (String.eqb r.(Feed.URL) u)) (update_rows_by_id f rows) =
  filter (fun r => negb (String.eqb r.(Feed.URL) u)) rows.
Proof.
  intros H Hf. induction rows as [|r rs IH]; simpl; auto.
  destruct (String.eqb_spec (Feed.ID r) (Feed.ID f)) as [E|E]; simpl.
  - rewrite Hf, (H r (or_introl eq_refl) E), String.eqb_refl. simpl.
    apply IH. intros x Hx. apply H. now right.
  - rewrite IH; auto. intros x Hx. apply H. now right.
Qed.

(** Lines 303-326 with 242-300: deleting the feed [FeedPersist] returned
    (its Title is never empty after the defaults, so the URL condition is
    applied) succeeds and leaves the table as it was before the
    [FeedPersist], less any row that already had that URL. *)
Theorem FeedPersist_then_FeedDelete (env : Env) (feed : Feed.t) (w : World) :
  feed.(Feed.URL) <> "" -> feed.(Feed.ID) = "" -> feeds_ok w.(db) ->
  (Forall (fun r => r.(Feed.URL) <> feed.(Feed.URL)) w.(db) ->
     ~ In (uuid env (uuids w.(st))) (map Feed.ID w.(db)) /\ uuid env (uuids w.(st)) <> "") ->
  let '(e, f, w') := FeedPersist env feed w in
  FeedDelete f w' =
    (None, set_db (log_query w' (QDelete [CondID f.(Feed.ID); CondURL f.(Feed.URL)]))
                  (filter (fun r => negb (String.eqb r.(Feed.URL) feed.(Feed.URL))) w.(db))).
Proof.
  intros Hu Hid Hok Hfresh.
  pose proof (FeedPersist_no_id env feed w Hu Hid Hok Hfresh) as A.
  pose proof (FeedPersist_no_id_db env feed w Hu Hid Hok Hfresh) as B.
  destruct (FeedPersist_feed_shape env feed w Hu) as (id & c & Hshape).
  destruct (persist_defaults_fields env feed w.(st)) as (HT & HU & _).
  destruct (FeedPersist env feed w) as [[e f] w']. simpl in Hshape.
  destruct A as (_ & _ & (Hids' & Hurls' & _) & _ & _).
  destruct B as (HfU & Hfid & Hcase).
  assert (Htitle : Feed.Title f <> "").
  { rewrite Hshape. simpl. rewrite HT.
    destruct (String.eqb_spec (Feed.Title feed) ""); auto. }
  assert (Hin : In f w'.(db)).
  { destruct Hcase as [(_ & ->) | (r0 & Hr0 & _ & Hi & -> & Hup)].
    - apply in_or_app. right. now left.
    - assert (H : In (update_row f r0) (update_rows_by_id f w.(db))).
      { apply in_map_iff. exists r0. rewrite <- Hi, String.eqb_refl. auto. }
      now rewrite Hup in H. }
  unfold FeedDelete, delete_feeds.
  apply String.eqb_neq in Hfid. apply String.eqb_neq in Htitle. rewrite Hfid, Htitle.
  cbn [negb andb app forallb cond_resolves String.eqb Ascii.eqb Bool.eqb db log_query set_db].
  rewrite filter_delete_key.
  2:{ intros r Hr. split; intros E.
      - now rewrite (nodup_map_eq Feed.ID _ r f Hids' Hr Hin E).
      - now rewrite (nodup_map_eq Feed.URL _ r f Hurls' Hr Hin E). }
  rewrite HfU. f_equal. f_equal.
  destruct Hcase as [(Hnone & ->) | (r0 & Hr0 & Hu0 & Hi & -> & _)].
  - rewrite filter_app. simpl. rewrite HfU, String.eqb_refl. simpl. now rewrite app_nil_r.
  - apply filter_url_update; auto.
    intros r Hr E. destruct Hok as (Hids & _).
    rewrite (nodup_map_eq Feed.ID _ r r0 Hids Hr Hr0 ltac:(congruence)). exact Hu0.
Qed.

Lemma FeedPersist_then_FeedDelete_witness :
  let env := test_env (DoErr "x" None) (inr "x") in
  let feed := mkfeed "" "http://a/feed.xml" "" in
  let w := mkWorld [mkfeed "id0" "http://b/feed.xml" "B"] [] st0 in
  (let '(e, f, w') := FeedPersist env feed w in
   (snd (FeedDelete f w')).(db) = w.(db)) /\
  let '(e, f, w') := FeedPersist env feed w in
  FeedDelete f w' =
    (None, set_db (log_query w' (QDelete [CondID f.(Feed.ID); CondURL f.(Feed.URL)]))
                  (filter (fun r => negb (String.eqb r.(Feed.URL) feed.(Feed.URL))) w.(db))).
Proof.
  intros env feed w. split; [reflexivity|].
  apply (FeedPersist_then_FeedDelete env feed w).
  - discriminate.
  - reflexivity.
  - unfold feeds_ok. simpl. split; [|split].
    + repeat constructor. intros [].
    + repeat constructor. intros [].
    + intros [H|[]]. discriminate.
  - intros _. simpl. split; [intros [H|[]]|]; discriminate.
Defined.

(** *** [FeedList] *)

Lemma tag_conds_empty (tags : list string) :
  Forall (fun t => t = "") tags -> tag_conds tags = [].
Proof. induction 1 as [|t ts Ht _ IH]; simpl; auto. now rewrite Ht. Qed.

Lemma tag_conds_unresolved (tags : list string) :
  Exists (fun t => t <> "") tags -> forallb (cond_resolves "feeds") (tag_conds tags) = false.
Proof.
  induction 1 as [t ts Ht|t ts _ IH]; simpl; rewrite forallb_app.
  - apply String.eqb_neq in Ht. rewrite Ht. now destruct (HasPrefix t "-").
  - rewrite IH, andb_false_r. reflexivity.
Qed.

Lemma list_conds_resolved (options : FeedListOptions) :
  Forall (fun t => t = "") (tags_of options.(OptTags)) ->
  forallb (cond_resolves "feeds") (list_conds options) = true.
Proof.
  intros H. unfold list_conds. rewrite (tag_conds_empty _ H), !forallb_app.
  destruct (negb (String.eqb (Search options) "")), (negb (NotRefreshedSince options =? 0)); reflexivity.
Qed.

Section SortedSlices.
Context {A : Type} (R : A -> A -> Prop).

Lemma sorted_skipn (n : nat) (l : list A) : Sorted R l -> Sorted R (skipn n l).
Proof.
  revert l. induction n as [|n IH]; intros [|x l] H; simpl; auto.
  apply IH. now apply Sorted_inv in H.
Qed.

Lemma sorted_firstn (n : nat) (l : list A) : Sorted R l -> Sorted R (firstn n l).
Proof.
  revert l. induction n as [|n IH]; intros [|x l] H; simpl; auto.
  apply Sorted_inv in H as [Hs Hd]. constructor; [now apply IH|].
  destruct n, l; simpl; constructor; now inversion Hd.
Qed.
End SortedSlices.

Lemma in_firstn_in {A} (n : nat) (l : list A) (x : A) : In x (firstn n l) -> In x l.
Proof. intros H. rewrite <- (firstn_skipn n l). now apply in_or_app; left. Qed.

Lemma in_skipn_in {A} (n : nat) (l : list A) (x : A) : In x (skipn n l) -> In x l.
Proof. intros H. rewrite <- (firstn_skipn n l). now apply in_or_app; right. Qed.

(** Lines 179-219: with no tag filter in effect (no tag, or only empty
    ones), [FeedList] changes no row; its count is the number of matching
    rows whatever Limit and Offset are; the page holds only matching rows,
    sorted by LastAuthored, newest first; it holds at most Limit rows when
    Limit is not negative; and with no offset and a limit that does not cut,
    it holds every matching row. *)
Theorem FeedList_page (options : FeedListOptions) (w : World) :
  Forall (fun t => t = "") (tags_of options.(OptTags)) ->
  let '(feeds, totalCount, w') := FeedList options w in
  let found := filter (matches (list_conds options)) w.(db) in
  w'.(db) = w.(db) /\
  totalCount = Z.of_nat (List.length found) /\
  (forall f, In f feeds -> In f w.(db) /\ matches (list_conds options) f = true) /\
  Sorted (fun a b => b.(Feed.LastAuthored) <= a.(Feed.LastAuthored)) feeds /\
  (0 <= options.(Limit) -> (List.length feeds <= Z.to_nat options.(Limit))%nat) /\
  (options.(Offset) <= 0 -> (options.(Limit) < 0 \/ totalCount <= options.(Limit)) -> Permutation feeds found).
Proof.
  intros Htags. unfold FeedList, select_feeds. simpl.
  rewrite (list_conds_resolved options Htags). simpl.
  set (found := filter (matches (list_conds options)) (db w)).
  set (before := fun a b : Feed.t => Feed.LastAuthored b <? Feed.LastAuthored a).
  assert (Hperm : Permutation (sort_stable before found) found) by apply sort_stable_perm.
  assert (Hsort : Sorted (fun a b => Feed.LastAuthored b <= Feed.LastAuthored a) (sort_stable before found)).
  { apply sort_stable_sorted; unfold before; intros x y H.
    - apply Z.ltb_lt in H. lia.
    - apply Z.ltb_ge in H. lia. }
  assert (Hin : forall f, In f (sort_stable before found) -> In f (db w) /\ matches (list_conds options) f = true).
  { intros f Hf. apply (Permutation_in _ Hperm) in Hf. now apply filter_In in Hf. }
  unfold order_limit. fold before.
  split; [reflexivity|]. split; [reflexivity|].
  destruct (Limit options <? 0) eqn:HL.
  - apply Z.ltb_lt in HL. split; [|split; [|split]].
    + intros f Hf. apply Hin. exact (in_skipn_in _ _ _ Hf).
    + now apply sorted_skipn.
    + lia.
    + intros Ho _. replace (Z.to_nat (Offset options)) with 0%nat by lia. exact Hperm.
  - apply Z.ltb_ge in HL. split; [|split; [|split]].
    + intros f Hf. apply Hin. exact (in_skipn_in _ _ _ (in_firstn_in _ _ _ Hf)).
    + now apply sorted_firstn, sorted_skipn.
    + intros _. apply firstn_le_length.
    + intros Ho [Hl|Hl]; [lia|].
      replace (Z.to_nat (Offset options)) with 0%nat by lia. simpl.
      rewrite firstn_all2; [exact Hperm|].
      rewrite (Permutation_length Hperm). lia.
Qed.

Lemma FeedList_page_witness :
  let a := Feed.mk "id1" 1 1 1 5 "Go news" "http://a/feed.xml" "" (Some []) [] in
  let b := Feed.mk "id2" 1 1 1 9 "Rust" "http://b/feed.xml" "" (Some []) [] in
  let c := Feed.mk "id3" 1 1 1 7 "go weekly" "http://c/feed.xml" "" (Some []) [] in
  let options := mkFeedListOptions "go" (Some [""]) 0 1 0 in
  let w := mkWorld [a; b; c] [] st0 in
  fst (fst (FeedList options w)) = [c] /\ snd (fst (FeedList options w)) = 2 /\
  let '(feeds, totalCount, w') := FeedList options w in
  let found := filter (matches (list_conds options)) w.(db) in
  w'.(db) = w.(db) /\
  totalCount = Z.of_nat (List.length found) /\
  (forall f, In f feeds -> In f w.(db) /\ matches (list_conds options) f = true) /\
  Sorted (fun a b => b.(Feed.LastAuthored) <= a.(Feed.LastAuthored)) feeds /\
  (0 <= options.(Limit) -> (List.length feeds <= Z.to_nat options.(Limit))%nat) /\
  (options.(Offset) <= 0 -> (options.(Limit) < 0 \/ totalCount <= options.(Limit)) -> Permutation feeds found).
Proof.
  intros a b c options w. split; [reflexivity|]. split; [reflexivity|].
  apply (FeedList_page options w). repeat constructor.
Defined.

(** Lines 190-201 and 203-207: as soon as one tag is not empty, the count
    query reads [thoughts.tags], which [FROM feeds] does not provide, and
    [FeedList] returns no feed and a zero count after issuing only that
    query, whatever the table holds. *)
Theorem FeedList_nonempty_tag_fails (options : FeedListOptions) (w : World) :
  Exists (fun t => t <> "") (tags_of options.(OptTags)) ->
  FeedList options w = ([], 0, log_query w (QSelect ["COUNT(id)"] (list_conds options))).
Proof.
  intros H. unfold FeedList, select_feeds, list_conds. simpl.
  rewrite !forallb_app, (tag_conds_unresolved _ H), !andb_false_r. reflexivity.
Qed.

Lemma FeedList_nonempty_tag_fails_witness :
  let a := Feed.mk "id1" 1 1 1 5 "Go news" "http://a/feed.xml" "" (Some ["go"]) [] in
  let options := mkFeedListOptions "" (Some [""; "go"]) 0 10 0 in
  let w := mkWorld [a] [] st0 in
  FeedList options w = ([], 0, log_query w (QSelect ["COUNT(id)"] (list_conds options))).
Proof.
  intros a options w. apply (FeedList_nonempty_tag_fails options w).
  apply Exists_cons_tl, Exists_cons_hd. discriminate.
Defined.

(** Line 191-192: empty tags are skipped, so a tag list made only of empty
    strings lists exactly what no tag list does (the same page, count and
    statements). *)
Theorem FeedList_empty_tags_ignored (options : FeedListOptions) (w : World) :
  Forall (fun t => t = "") (tags_of options.(OptTags)) ->
  FeedList options w =
  FeedList (mkFeedListOptions options.(Search) None options.(NotRefreshedSince) options.(Limit) options.(Offset)) w.
Proof.
  intros H. unfold FeedList. replace (list_conds options) with
    (list_conds (mkFeedListOptions options.(Search) None options.(NotRefreshedSince) options.(Limit) options.(Offset))).
  - reflexivity.
  - unfold list_conds. simpl. now rewrite (tag_conds_empty _ H).
Qed.

Lemma FeedList_empty_tags_ignored_witness :
  let a := Feed.mk "id1" 1 1 1 5 "Go news" "http://a/feed.xml" "" (Some ["go"]) [] in
  let options := mkFeedListOptions "go" (Some [""; ""]) 0 10 0 in
  let w := mkWorld [a] [] st0 in
  FeedList options w = FeedList (mkFeedListOptions "go" None 0 10 0) w.
Proof.
  intros a options w. apply (FeedList_empty_tags_ignored options w). repeat constructor.
Defined.

(** *** [FeedDelete] *)

Lemma filter_idem {A} (p : A -> bool) (l : list A) : filter p (filter p l) = filter p l.
Proof.
  induction l as [|x l IH]; simpl; auto.
  destruct (p x) eqn:E; simpl; [rewrite E, IH|]; auto.
Qed.

(** Lines 303-326: with a key present, [FeedDelete] always succeeds (the
    conditions it builds only read columns of [feeds]), keeps only rows of
    the table, and a second identical call succeeds and removes nothing
    more. *)
Theorem FeedDelete_idempotent (feed : Feed.t) (w : World) :
  feed.(Feed.ID) <> "" \/ feed.(Feed.URL) <> "" ->
  let '(e1, w1) := FeedDelete feed w in
  let '(e2, w2) := FeedDelete feed w1 in
  e1 = None /\ e2 = None /\ incl w1.(db) w.(db) /\ w2.(db) = w1.(db).
Proof.
  intros Hkey. unfold FeedDelete.
  assert (Hk : String.eqb (Feed.ID feed) "" && String.eqb (Feed.URL feed) "" = false).
  { destruct Hkey as [H|H]; apply String.eqb_neq in H; rewrite H; [|apply andb_false_r]; reflexivity. }
  rewrite Hk.
  set (conds := ((if negb (String.eqb (Feed.ID feed) "") then [CondID (Feed.ID feed)] else []) ++
                 (if negb (String.eqb (Feed.Title feed) "") then [CondURL (Feed.URL feed)] else []))%list).
  assert (Hr : forallb (cond_resolves "feeds") conds = true).
  { unfold conds. destruct (negb (String.eqb (Feed.ID feed) "")), (negb (String.eqb (Feed.Title feed) "")); reflexivity. }
  unfold delete_feeds. rewrite Hr. simpl.
  repeat split; [|apply filter_idem].
  intros r Hin. now apply filter_In in Hin.
Qed.

Lemma FeedDelete_idempotent_witness :
  let a := mkfeed "id1" "http://a/feed.xml" "A" in
  let b := mkfeed "id2" "http://b/feed.xml" "B" in
  let feed := mkfeed "id1" "http://a/feed.xml" "A" in
  let w := mkWorld [a; b] [] st0 in
  (snd (FeedDelete feed w)).(db) = [b] /\
  let '(e1, w1) := FeedDelete feed w in
  let '(e2, w2) := FeedDelete feed w1 in
  e1 = None /\ e2 = None /\ incl w1.(db) w.(db) /\ w2.(db) = w1.(db).
Proof.
  intros a b feed w. split; [reflexivity|].
  apply (FeedDelete_idempotent feed w). left. discriminate.
Defined.
